(** * Incremental annotation updates and demand-paged access in pdf.js

    A shallow embedding of the annotation write path
    ([src/core/annotation_writer.js], [src/editing/annotating.js]) and of the
    three document accessors of [src/core/pdf_manager.js], with the
    properties the specification states about them.

    Conventions of the embedding:
    - a JavaScript number is an exact rational ([Q]) where the code computes
      with fractions and an integer ([Z]) where it holds an object number or
      the result of [parseInt]; the rounding of IEEE doubles is not modelled;
    - a promise is the outcome it settles with ([Fulfilled] or [Rejected]),
      and the objects the code mutates (the trailer, a page's annotation
      array) are threaded through explicitly as the document state;
    - [undefined] is a value of its own ([VUndefined]) or, for an optional
      request field, [None]. *)

From Stdlib Require Import ZArith QArith Qabs List String Bool Lia Lqa.
Import ListNotations.
Open Scope string_scope.
Open Scope Z_scope.
Set Warnings "-register-all".

(* ================================================================== *)
(** * Object primitives *)
(* ================================================================== *)

Module Primitives.

(** [new Ref(num, gen)]. *)
Record Ref : Type := mkRef { num : Z; gen : Z }.

(** The values a dictionary entry can hold.  [VName] is a [Name] object,
    [VStr] a JavaScript string, [VArr] an array and [VDict] a nested [Dict]. *)
Inductive Value : Type :=
| VUndefined
| VInt (n : Z)
| VReal (q : Q)
| VStr (s : string)
| VName (s : string)
| VRef (r : Ref)
| VArr (items : list Value)
| VDict (entries : list (string * Value)).

(** Modelled from the spec: the [Dict] class ([src/core/primitives.js]) is
    not among the sources.  Section 3 and 4.4 describe it as an ordered
    mapping with unique keys in which the last write wins, with [set],
    [getRaw] (the stored value, no indirection followed) and the enumeration
    of the keys in insertion order.  It is an association list here, oldest
    key first. *)
Definition Dict : Type := list (string * Value).

Definition empty : Dict := [].

Definition getKeys (d : Dict) : list string := map fst d.

Fixpoint getRaw (d : Dict) (k : string) : Value :=
  match d with
  | [] => VUndefined
  | (k', v) :: rest => if String.eqb k' k then v else getRaw rest k
  end.

Fixpoint has (d : Dict) (k : string) : bool :=
  match d with
  | [] => false
  | (k', _) :: rest => String.eqb k' k || has rest k
  end.

(** [set] keeps the position of a key that is already bound and appends a
    new one. *)
Fixpoint set (d : Dict) (k : string) (v : Value) : Dict :=
  match d with
  | [] => [(k, v)]
  | (k', v') :: rest =>
      if String.eqb k' k then (k', v) :: rest else (k', v') :: set rest k v
  end.

(** The representation invariant of a dictionary: no key occurs twice. *)
Definition wf_dict (d : Dict) : Prop := NoDup (getKeys d).

End Primitives.
Export Primitives.

(* ================================================================== *)
(** * Numbers: what [parseInt] does to a number *)
(* ================================================================== *)

Module Numbers.

(** Truncation toward zero. *)
Definition Qtrunc (q : Q) : Z := Z.quot (Qnum q) (Zpos (Qden q)).

Definition Qleb (a b : Q) : bool := Qle_bool a b.
Definition Qltb (a b : Q) : bool := negb (Qle_bool b a).

Definition ten_pow (n : nat) : Q := inject_Z (10 ^ Z.of_nat n).

(** The leading decimal digit of a positive rational: scale by ten until
    the value lies in [1, 10), then truncate.  The fuel bounds the number of
    scalings; [leading_digit] supplies enough of it. *)
Fixpoint scale_to_unit (fuel : nat) (a : Q) : Q :=
  match fuel with
  | O => a
  | S fuel' =>
      if Qltb a 1 then scale_to_unit fuel' (a * 10)
      else if Qleb 10 a then scale_to_unit fuel' (a / 10)
      else a
  end.

Definition leading_digit (a : Q) : Z :=
  Qtrunc (scale_to_unit
            (Pos.size_nat (Z.to_pos (Qnum a)) + Pos.size_nat (Qden a)) a).

(** [parseInt(v)] for a number [v]: the argument is first converted to a
    string (ECMAScript Number::toString) and the longest prefix that reads
    as an integer is parsed.  For 1e-6 <= |v| < 1e21 the string is in plain
    decimal notation and the prefix is the integer part; outside that range
    the string is in exponent notation ("6.12e-7", "1e+21") and the prefix
    is the sign and the single leading digit. *)
Definition parseInt (v : Q) : Z :=
  if Qeq_bool v 0 then 0
  else
    let a := Qabs v in
    if Qleb (/ ten_pow 6) a && Qltb a (ten_pow 21) then Qtrunc v
    else Z.sgn (Qnum v) * leading_digit a.

(** The numbers whose string has no exponent: zero, and those of magnitude
    in [1e-6, 1e21). *)
Definition plain_decimal (v : Q) : bool :=
  Qeq_bool v 0
  || (Qleb (/ ten_pow 6) (Qabs v) && Qltb (Qabs v) (ten_pow 21)).

(** A positive integer without its trailing zero bits. *)
Fixpoint odd_part (p : positive) : positive :=
  match p with
  | xO p' => odd_part p'
  | _ => p
  end.

Definition power_of_two (p : positive) : bool := Pos.eqb (odd_part p) 1.

(** The rationals a double holds exactly: zero, and the fractions whose
    lowest terms have a power of two below and at most 53 significant bits
    above.  (The exponent range is not part of the test; every number of
    magnitude in [1e-6, 1e21) lies within it.)  The product of two doubles
    that is such a rational is the product the source computes; any other
    product is rounded to the nearest double first. *)
Definition is_double (q : Q) : bool :=
  match Qnum (Qred q) with
  | Z0 => true
  | Zpos n | Zneg n =>
      power_of_two (Qden (Qred q)) && (Zpos (odd_part n) <? 2 ^ 53)
  end.

End Numbers.
Export Numbers.

(* ================================================================== *)
(** * Pages, documents and annotation requests *)
(* ================================================================== *)

(** Modelled from the spec: the [Page] class ([src/core/document.js]) is not
    among the sources; section 3 gives a page an identity [ref], a backing
    dictionary [pageDict], a view rectangle [[x0, y0, x1, y1]] and a mutable
    sequence [annotations] of references. *)
Record View : Type := mkView { x0 : Q; y0 : Q; x1 : Q; y1 : Q }.

(** [view[i]] for the four entries of the rectangle. *)
Definition view_at (v : View) (i : nat) : Q :=
  match i with
  | 0%nat => x0 v
  | 1%nat => y0 v
  | 2%nat => x1 v
  | _ => y1 v
  end.

Record Page : Type := mkPage {
  ref : Ref;
  pageDict : Dict;
  view : View;
  annotations : list Ref
}.

(** [AnnotationCoordinates] and [AnnotationProperties] of
    [annotation_writer.js]; [author = None] is an [author] that is
    [undefined]. *)
Record AnnotationCoordinates : Type := mkCoords { x : Q; y : Q }.

Record AnnotationProperties : Type := mkAnnotation {
  page : Z;
  coords : AnnotationCoordinates;
  contents : string;
  author : option string
}.

(** The parsed document as far as the write path reads it: [xref.trailer],
    [startXRef] and the pages [getPage] resolves. *)
Record PDFDocument : Type := mkDocument {
  trailer : Dict;
  startXRef : Z;
  pages : list Page
}.

(** Modelled from the spec: [PDFDocument.getPage] ([src/core/document.js])
    is not among the sources; an index that names no page makes the
    resolution fail (section 7, invalid page index). *)
Definition getPage (doc : PDFDocument) (pageIndex : Z) : option Page :=
  if pageIndex <? 0 then None else nth_error (pages doc) (Z.to_nat pageIndex).

(** [trailer.get('Size')], for a trailer whose [Size] is an integer. *)
Definition get_Size (t : Dict) : option Z :=
  match getRaw t "Size" with
  | VInt n => Some n
  | _ => None
  end.

(* ================================================================== *)
(** * [src/core/annotation_writer.js] *)
(* ================================================================== *)

(** The array literal [[x, y, x + 12, y + 10]]. *)
Definition rectOf (px py : Z) : Value :=
  VArr [VInt px; VInt py; VInt (px + 12); VInt (py + 10)].

(** [annotationDict(annotation, pdfPage)], lines 33-58.  The products
    [coords.x * width] and [coords.y * height] are exact here; the source
    rounds each to a double before [parseInt], which moves a product lying
    within half a unit in the last place below an integer up to it
    ([is_double] says when no rounding takes place). *)
Definition annotationDict (annotation : AnnotationProperties) (pdfPage : Page)
  : Dict :=
  let newAnnotationDict := set empty "Type" (VName "Annot") in
  let width := view_at (view pdfPage) 2 in
  let height := view_at (view pdfPage) 3 in
  let px := parseInt (x (coords annotation) * width) in
  let py := parseInt (y (coords annotation) * height) in
  let newAnnotationDict := set newAnnotationDict "Rect" (rectOf px py) in
  let newAnnotationDict := set newAnnotationDict "Subtype" (VName "Text") in
  let newAnnotationDict :=
    set newAnnotationDict "Contents" (VStr (contents annotation)) in
  match author annotation with
  | Some a => set newAnnotationDict "T" (VStr a)
  | None => newAnnotationDict
  end.

(** The rewritten page dictionary, lines 85-92: every key of [pageDict] but
    [Annots] is copied with its raw value, in the order [getKeys] gives, and
    [Annots] is set last. *)
Definition copyKey (pageDict : Dict) (newPageDict : Dict) (k : string) : Dict :=
  if negb (String.eqb k "Annots") then set newPageDict k (getRaw pageDict k)
  else newPageDict.

Definition rewritePageDict (pageDict : Dict) (annotations : list Ref) : Dict :=
  let newPageDict := fold_left (copyKey pageDict) (getKeys pageDict) empty in
  set newPageDict "Annots" (VArr (map VRef annotations)).

(** The entries the copy keeps: those whose key is not [Annots]. *)
Definition not_Annots (entry : string * Value) : bool :=
  negb (String.eqb (fst entry) "Annots").

(** [annotations.push(ref)] on the array of the page that [getPage] resolved:
    the page object stays in the document, so the document afterwards holds
    the grown array. *)
Definition push_annotation (pdfPage : Page) (r : Ref) : Page :=
  mkPage (ref pdfPage) (pageDict pdfPage) (view pdfPage)
         (annotations pdfPage ++ [r]).

Fixpoint replace_page (ps : list Page) (i : nat) (p : Page) : list Page :=
  match ps, i with
  | [], _ => []
  | _ :: rest, O => p :: rest
  | q :: rest, S i' => q :: replace_page rest i' p
  end.

Definition with_trailer (doc : PDFDocument) (t : Dict) : PDFDocument :=
  mkDocument t (startXRef doc) (pages doc).

Definition with_page (doc : PDFDocument) (pageIndex : Z) (p : Page)
  : PDFDocument :=
  mkDocument (trailer doc) (startXRef doc)
             (replace_page (pages doc) (Z.to_nat pageIndex) p).

(** Modelled from the spec: [PDFDataWriter] ([src/core/pdf_data_writer.js])
    is not among the sources.  Section 4.3 (step 7) says what it serializes
    and that the result depends on the prior bytes through their count only.
    The builder is the record of what it was constructed with and of the
    calls it received, in order; the bytes [toUint8Array] renders from that
    record are a parameter of the development. *)
Inductive WriterCall : Type :=
| SetTrailer (t : Dict)
| SetStartXRef (offset : Z)
| StartObj (r : Ref)
| AppendDict (d : Dict)
| EndObj
| AppendTrailer.

Record PDFDataWriter : Type := mkWriter {
  w_data : option (list Byte.byte);
  w_byteLength : option Z;
  w_calls : list WriterCall
}.

Definition call (c : WriterCall) (w : PDFDataWriter) : PDFDataWriter :=
  mkWriter (w_data w) (w_byteLength w) (w_calls w ++ [c]).

(** The chain of builder calls both write paths make, lines 96-105. *)
Definition writeUpdate (w : PDFDataWriter) (trailer : Dict) (startXRef : Z)
    (newAnnotationRef : Ref) (newAnnotationDict : Dict)
    (pageRef : Ref) (newPageDict : Dict) : PDFDataWriter :=
  call AppendTrailer
    (call EndObj
      (call (AppendDict newPageDict)
        (call (StartObj pageRef)
          (call EndObj
            (call (AppendDict newAnnotationDict)
              (call (StartObj newAnnotationRef)
                (call (SetStartXRef startXRef)
                  (call (SetTrailer trailer) w)))))))).

(** How a promise settled. *)
Inductive Promise (E A : Type) : Type :=
| Fulfilled (a : A)
| Rejected (e : E).
Arguments Fulfilled {E A} a.
Arguments Rejected {E A} e.

(** Why an [annotate] promise is rejected. *)
Inductive Failure : Type :=
| PageResolutionFailed (pageIndex : Z)
| StreamFailed (reason : string).

Definition Bytes : Type := list Byte.byte.

(** The dictionaries handed to [appendDict], in call order. *)
Fixpoint appended_dicts (cs : list WriterCall) : list Dict :=
  match cs with
  | [] => []
  | AppendDict d :: rest => d :: appended_dicts rest
  | _ :: rest => appended_dicts rest
  end.

(** The references handed to [startObj], in call order. *)
Fixpoint started_objs (cs : list WriterCall) : list Ref :=
  match cs with
  | [] => []
  | StartObj r :: rest => r :: started_objs rest
  | _ :: rest => started_objs rest
  end.

Section WritePath.

(** [PDFDataWriter.prototype.toUint8Array]. *)
Variable toUint8Array : PDFDataWriter -> Bytes.

(** The body of [writeAnnotation], lines 67-105, up to the last builder
    call: the builder after [appendTrailer()], or the failure of [getPage],
    and the document as the write leaves it.  [trailer.set('Size', ...)]
    runs before [getPage] is called; the steps of the [then] callback run
    when the page has resolved.  The result is [None] for a trailer whose
    [Size] is not an integer, which is outside the data model. *)
Definition writeAnnotation_writer (pdfDocument : PDFDocument)
    (annotation : AnnotationProperties) (byteLength : Z)
  : option (Promise Failure PDFDataWriter * PDFDocument) :=
  let page := page annotation in
  let trailer0 := trailer pdfDocument in
  let startXRef := startXRef pdfDocument in
  match get_Size trailer0 with
  | None => None
  | Some size =>
      let newAnnotationRef := mkRef size 0 in
      let trailer1 := set trailer0 "Size" (VInt (size + 1)) in
      let pdfDocument1 := with_trailer pdfDocument trailer1 in
      match getPage pdfDocument1 page with
      | None => Some (Rejected (PageResolutionFailed page), pdfDocument1)
      | Some pdfPage0 =>
          let pageRef := ref pdfPage0 in
          let pdfPage := push_annotation pdfPage0 newAnnotationRef in
          let pdfDocument2 := with_page pdfDocument1 page pdfPage in
          let annotations := annotations pdfPage in
          let newPageDict := rewritePageDict (pageDict pdfPage) annotations in
          let newAnnotationDict := annotationDict annotation pdfPage in
          Some (Fulfilled
                  (writeUpdate (mkWriter None (Some byteLength) [])
                     trailer1 startXRef newAnnotationRef newAnnotationDict
                     pageRef newPageDict),
                pdfDocument2)
      end
  end.

Definition settle_bytes (r : Promise Failure PDFDataWriter)
  : Promise Failure Bytes :=
  match r with
  | Fulfilled w => Fulfilled (toUint8Array w)
  | Rejected e => Rejected e
  end.

(** [writeAnnotation(pdfDocument, annotation, byteLength)], lines 67-108. *)
Definition writeAnnotation (pdfDocument : PDFDocument)
    (annotation : AnnotationProperties) (byteLength : Z)
  : option (Promise Failure Bytes * PDFDocument) :=
  match writeAnnotation_writer pdfDocument annotation byteLength with
  | Some (r, doc') => Some (settle_bytes r, doc')
  | None => None
  end.

End WritePath.

(* ================================================================== *)
(** * The document accessors of [src/core/pdf_manager.js] *)
(* ================================================================== *)

(** The three managers, as far as the write path uses them: what
    [onLoadedStream()] settles with.  For [NetworkPdfManager] that is the
    promise of the byte-range source ([streamManager.onLoadedStream()]). *)
Inductive PdfManager : Type :=
| LocalPdfManager (stream : Bytes)
| NetworkPdfManager (streamManager_onLoadedStream : Promise Failure Bytes)
| UpdatePdfManager (loadedStreamPromise : Promise Failure Bytes).

Definition onLoadedStream (m : PdfManager) : Promise Failure Bytes :=
  match m with
  | LocalPdfManager stream => Fulfilled stream
  | NetworkPdfManager p => p
  | UpdatePdfManager p => p
  end.

Definition byteLength (b : Bytes) : Z := Z.of_nat (List.length b).

Section Managers.

Variable toUint8Array : PDFDataWriter -> Bytes.

(** [PDFDocument.prototype.update(manager, stream)] is not among the
    sources (section 6: it re-parses the document with the appended bytes);
    it is a parameter. *)
Variable update : PDFDocument -> Bytes -> PDFDocument.

(** [BasePdfManager.prototype.annotateDocument], lines 105-112.
    [this.requestLoadedStream()] asks the byte-range source for the chunks
    still missing; what the write path sees of it is how [onLoadedStream()]
    settles.  When that promise is rejected [writeAnnotation] is not
    called. *)
Definition annotateDocument (m : PdfManager) (pdfDocument : PDFDocument)
    (annotation : AnnotationProperties)
  : option (Promise Failure Bytes * PDFDocument) :=
  match onLoadedStream m with
  | Fulfilled stream =>
      writeAnnotation toUint8Array pdfDocument annotation (byteLength stream)
  | Rejected e => Some (Rejected e, pdfDocument)
  end.

(** The constructor of [UpdatePdfManager], lines 206-227: the new manager
    shares the old manager's [pdfDocument]; once the old stream is loaded the
    old bytes and the update are concatenated and the document re-parsed. *)
Definition new_UpdatePdfManager (oldPdfManager : PdfManager)
    (updatedData : Bytes) (pdfDocument : PDFDocument)
  : PdfManager * PDFDocument :=
  match onLoadedStream oldPdfManager with
  | Fulfilled oldStream =>
      let data := (oldStream ++ updatedData)%list in
      (UpdatePdfManager (Fulfilled data), update pdfDocument data)
  | Rejected e => (UpdatePdfManager (Rejected e), pdfDocument)
  end.

(** ** The older write path: [src/editing/annotating.js] and the second
    copy of [BasePdfManager.annotateDocument] in [pdf_manager.js]

    Both inline the steps of [writeAnnotation]; they read [page], [coords]
    and [contents] of the request and nothing else, and differ in how the
    writer is constructed. *)
Definition inline_write (w0 : PDFDataWriter) (pdfDocument : PDFDocument)
    (annotation : AnnotationProperties)
  : option (Promise Failure PDFDataWriter * PDFDocument) :=
  let trailer0 := trailer pdfDocument in
  let startXRef := startXRef pdfDocument in
  match get_Size trailer0 with
  | None => None
  | Some size =>
      let newAnnotationRef := mkRef size 0 in
      let trailer1 := set trailer0 "Size" (VInt (size + 1)) in
      let pdfDocument1 := with_trailer pdfDocument trailer1 in
      let newAnnotationDict := set empty "Type" (VName "Annot") in
      let newAnnotationDict := set newAnnotationDict "Subtype" (VName "Text") in
      let newAnnotationDict :=
        set newAnnotationDict "Contents" (VStr (contents annotation)) in
      match getPage pdfDocument1 (page annotation) with
      | None =>
          Some (Rejected (PageResolutionFailed (page annotation)), pdfDocument1)
      | Some pdfPage0 =>
          let pageRef := ref pdfPage0 in
          let width := view_at (view pdfPage0) 2 in
          let height := view_at (view pdfPage0) 3 in
          let px := parseInt (x (coords annotation) * width) in
          let py := parseInt (y (coords annotation) * height) in
          let newAnnotationDict :=
            set newAnnotationDict "Rect" (rectOf px py) in
          let pdfPage := push_annotation pdfPage0 newAnnotationRef in
          let pdfDocument2 := with_page pdfDocument1 (page annotation) pdfPage in
          let annotations := annotations pdfPage in
          let newPageDict := rewritePageDict (pageDict pdfPage) annotations in
          Some (Fulfilled
                  (writeUpdate w0 trailer1 startXRef newAnnotationRef
                     newAnnotationDict pageRef newPageDict),
                pdfDocument2)
      end
  end.

(** [annotateDocument(pdfManager, { page, coords, contents })] of
    [src/editing/annotating.js]: the writer is given the file's bytes. *)
Definition editing_annotateDocument (m : PdfManager)
    (pdfDocument : PDFDocument) (annotation : AnnotationProperties)
  : option (Promise Failure PDFDataWriter * PDFDocument) :=
  match onLoadedStream m with
  | Fulfilled pdfData =>
      inline_write (mkWriter (Some pdfData) None []) pdfDocument annotation
  | Rejected e => Some (Rejected e, pdfDocument)
  end.


End Managers.

(* ================================================================== *)
(** * The [ensure] protocol *)
(* ================================================================== *)

(** What a synchronous evaluation throws. *)
Inductive Exception (Err : Type) : Type :=
| MissingDataException (begin end_ : Z)
| OtherException (e : Err).
Arguments MissingDataException {Err} begin end_.
Arguments OtherException {Err} e.

(** How the evaluation of [obj[prop]], or of [value.apply(obj, args)] when
    the property is a function, completes: it returns a value, which may be
    a promise (see [Returned] below), or it throws. *)
Inductive Completion (Err Val : Type) : Type :=
| Normal (v : Val)
| Throw (ex : Exception Err).
Arguments Normal {Err Val} v.
Arguments Throw {Err Val} ex.

Section Ensure.

(** [World] is the state the operation reads and the byte-range source
    changes (which bytes are resident, what the parser has cached). *)
Variables World Val Err : Type.

(** The operation [ensure] is asked for: one evaluation in a given world. *)
Variable operation : World -> Completion Err Val * World.

(** [streamManager.requestRange(begin, end)], awaited: [None] when the
    promise is fulfilled, [Some ex] when it is rejected with [ex]. *)
Variable streamManager_requestRange :
  Z -> Z -> World -> option (Exception Err) * World.

(** What a call of [ensure] amounts to: how its promise settled, the world
    it left and the ranges it requested, oldest first.  [Fulfilled v] says
    the promise was resolved with the returned value [v]; where [v] is
    itself a promise, [adopt] below gives how [ensure] settles. *)
Record Ensured : Type := mkEnsured {
  settled : Promise (Exception Err) Val;
  world : World;
  requested : list (Z * Z)
}.

Definition also_requested (r : Z * Z) (e : Ensured) : Ensured :=
  mkEnsured (settled e) (world e) (r :: requested e).

(** [LocalPdfManager.prototype.ensure], lines 129-135: an [async] function
    without a handler, so what the evaluation throws rejects the promise. *)
Definition LocalPdfManager_ensure (w : World) : Ensured :=
  match operation w with
  | (Normal value, w') => mkEnsured (Fulfilled value) w' []
  | (Throw ex, w') => mkEnsured (Rejected ex) w' []
  end.

(** [UpdatePdfManager.prototype.ensure], lines 229-235. *)
Definition UpdatePdfManager_ensure (w : World) : Ensured :=
  match operation w with
  | (Normal value, w') => mkEnsured (Fulfilled value) w' []
  | (Throw ex, w') => mkEnsured (Rejected ex) w' []
  end.

(** [NetworkPdfManager.prototype.ensure], lines 169-183.  The recursion of
    the source has no bound; [fuel] bounds the number of evaluations and
    [None] is a run that needs more. *)
Fixpoint NetworkPdfManager_ensure (fuel : nat) (w : World) : option Ensured :=
  match fuel with
  | O => None
  | S fuel' =>
      match operation w with
      | (Normal value, w') => Some (mkEnsured (Fulfilled value) w' [])
      | (Throw (OtherException e), w') =>
          Some (mkEnsured (Rejected (OtherException e)) w' [])
      | (Throw (MissingDataException b e), w') =>
          match streamManager_requestRange b e w' with
          | (Some ex, w'') => Some (mkEnsured (Rejected ex) w'' [(b, e)])
          | (None, w'') =>
              option_map (also_requested (b, e))
                         (NetworkPdfManager_ensure fuel' w'')
          end
      end
  end.

(** The protocol in the words of section 4.1, as a relation between the
    world [ensure] starts in and what it amounts to. *)
Inductive ensure_protocol : World -> Ensured -> Prop :=
| EP_value : forall w v w',
    operation w = (Normal v, w') ->
    ensure_protocol w (mkEnsured (Fulfilled v) w' [])
| EP_other : forall w e w',
    operation w = (Throw (OtherException e), w') ->
    ensure_protocol w (mkEnsured (Rejected (OtherException e)) w' [])
| EP_fetch_failed : forall w b e w' ex w'',
    operation w = (Throw (MissingDataException b e), w') ->
    streamManager_requestRange b e w' = (Some ex, w'') ->
    ensure_protocol w (mkEnsured (Rejected ex) w'' [(b, e)])
| EP_retry : forall w b e w' w'' r,
    operation w = (Throw (MissingDataException b e), w') ->
    streamManager_requestRange b e w' = (None, w'') ->
    ensure_protocol w'' r ->
    ensure_protocol w (also_requested (b, e) r).

End Ensure.

Arguments settled {World Val Err} e.
Arguments world {World Val Err} e.
Arguments requested {World Val Err} e.
Arguments mkEnsured {World Val Err} settled world requested.
Arguments also_requested {World Val Err} r e.
Arguments LocalPdfManager_ensure {World Val Err} operation w.
Arguments UpdatePdfManager_ensure {World Val Err} operation w.
Arguments NetworkPdfManager_ensure {World Val Err}
  operation streamManager_requestRange fuel w.
Arguments ensure_protocol {World Val Err}
  operation streamManager_requestRange _ _.

(** What an evaluation returns when methods may be asynchronous: a plain
    value, or a promise, given by how it settles.  [ensure] is an [async]
    function and returns the value without awaiting it (line 173), so its
    own promise is resolved with that value: with a plain value it is
    fulfilled, with a promise it settles as that promise does.  A rejection
    that arrives this way does not pass through the [catch] of [ensure]. *)
Inductive Returned (Err V : Type) : Type :=
| Plain (v : V)
| Thenable (p : Promise (Exception Err) V).
Arguments Plain {Err V} v.
Arguments Thenable {Err V} p.

(** How the promise of an [async] function settles, given what the body
    returned or threw. *)
Definition adopt {Err V : Type}
    (s : Promise (Exception Err) (Returned Err V))
  : Promise (Exception Err) V :=
  match s with
  | Fulfilled (Plain v) => Fulfilled v
  | Fulfilled (Thenable p) => p
  | Rejected ex => Rejected ex
  end.

(* ================================================================== *)
(** * The statement of section 8 about [Rect], and drivers *)
(* ================================================================== *)

(** The view's width and height, for a view rectangle [[x0, y0, x1, y1]]. *)
Definition viewWidth (v : View) : Q := x1 v - x0 v.
Definition viewHeight (v : View) : Q := y1 v - y0 v.

(** The rectangle section 8 promises, in the spec's words:
    [[trunc(xW), trunc(yH), trunc(xW)+12, trunc(yH)+10]] for a page of
    width [W] and height [H]. *)
Definition specified_Rect (c : AnnotationCoordinates) (v : View) : Value :=
  rectOf (Qtrunc (x c * viewWidth v)) (Qtrunc (y c * viewHeight v)).

(** The reference a fulfilled write minted: the first [startObj]. *)
Definition minted (w : PDFDataWriter) : option Ref :=
  hd_error (started_objs (w_calls w)).

(** A caller that issues writes one after the other on one document and
    keeps what each amounted to. *)
Fixpoint write_all (doc : PDFDocument)
    (requests : list (AnnotationProperties * Z))
  : option (list (Promise Failure PDFDataWriter) * PDFDocument) :=
  match requests with
  | [] => Some ([], doc)
  | (a, len) :: rest =>
      match writeAnnotation_writer doc a len with
      | None => None
      | Some (r, doc') =>
          match write_all doc' rest with
          | None => None
          | Some (rs, doc'') => Some (r :: rs, doc'')
          end
      end
  end.

(** The builder a call of [BasePdfManager.annotateDocument] renders. *)
Definition annotateDocument_writer (m : PdfManager) (pdfDocument : PDFDocument)
    (annotation : AnnotationProperties)
  : option (Promise Failure PDFDataWriter * PDFDocument) :=
  match onLoadedStream m with
  | Fulfilled stream =>
      writeAnnotation_writer pdfDocument annotation (byteLength stream)
  | Rejected e => Some (Rejected e, pdfDocument)
  end.

(** What section 5 and step 5 of section 4.3 say of a write: the annotation
    sequence of every page is afterwards what it was before. *)
Definition annotations_left_unchanged (doc : PDFDocument)
    (a : AnnotationProperties) (len : Z) : Prop :=
  forall r doc', writeAnnotation_writer doc a len = Some (r, doc') ->
    forall i, option_map annotations (getPage doc' i)
              = option_map annotations (getPage doc i).

(** What section 7 says of a failed page resolution: the trailer is
    afterwards what it was before. *)
Definition failure_commits_nothing (doc : PDFDocument)
    (a : AnnotationProperties) (len : Z) : Prop :=
  forall e doc', writeAnnotation_writer doc a len = Some (Rejected e, doc') ->
    get_Size (trailer doc') = get_Size (trailer doc).

(** ** Sample data *)

Definition letterPageDict : Dict :=
  [ ("Type", VName "Page");
    ("Parent", VRef (mkRef 2 0));
    ("Annots", VArr [VRef (mkRef 7 0)]);
    ("MediaBox", VArr [VInt 0; VInt 0; VInt 612; VInt 792]);
    ("Contents", VRef (mkRef 4 0)) ].

(** Page 0 of the end-to-end scenario of section 8: view [[0, 0, 612, 792]]. *)
Definition letterPage : Page :=
  mkPage (mkRef 3 0) letterPageDict (mkView 0 0 612 792) [mkRef 7 0].

(** A page whose view rectangle does not start at the origin. *)
Definition offsetPage : Page :=
  mkPage (mkRef 5 0)
         [ ("Type", VName "Page");
           ("MediaBox", VArr [VInt 10; VInt 0; VInt 622; VInt 792]) ]
         (mkView 10 0 622 792) [].

Definition sampleDocument : PDFDocument :=
  mkDocument [ ("Size", VInt 10); ("Root", VRef (mkRef 1 0)) ] 1234
             [letterPage; offsetPage].

(** The same trailer, offset and page 0, and another second page. *)
Definition otherDocument : PDFDocument :=
  mkDocument [ ("Size", VInt 10); ("Root", VRef (mkRef 1 0)) ] 1234
             [letterPage; letterPage; offsetPage].

Definition sampleAnnotation : AnnotationProperties :=
  mkAnnotation 0 (mkCoords (1 # 2) (1 # 2)) "hello" (Some "A").

Definition anonymousAnnotation : AnnotationProperties :=
  mkAnnotation 0 (mkCoords (1 # 2) (1 # 2)) "hello" None.

Definition offsetAnnotation : AnnotationProperties :=
  mkAnnotation 1 (mkCoords (1 # 2) (1 # 2)) "hello" (Some "A").

Definition missingPageAnnotation : AnnotationProperties :=
  mkAnnotation 7 (mkCoords (1 # 2) (1 # 2)) "hello" (Some "A").

(** A click one billionth of the page width from the left edge. *)
Definition tinyAnnotation : AnnotationProperties :=
  mkAnnotation 0 (mkCoords (1 # 1000000000) (1 # 2)) "hello" (Some "A").

Definition sampleBytes : Bytes := repeat Byte.x00 2000.

(** A world for [ensure]: the ranges that are resident.  The operation
    needs [0, 10) and then [10, 20); a request makes its range resident. *)
Definition resident (w : list (Z * Z)) (b e : Z) : bool :=
  existsb (fun r => (fst r =? b) && (snd r =? e)) w.

Definition sample_operation (w : list (Z * Z))
  : Completion string Z * list (Z * Z) :=
  if resident w 0 10 then
    if resident w 10 20 then (Normal 42, w)
    else (Throw (MissingDataException 10 20), w)
  else (Throw (MissingDataException 0 10), w).

Definition failing_operation (w : list (Z * Z))
  : Completion string Z * list (Z * Z) :=
  (Throw (OtherException "bad XRef entry"), w).

Definition sample_requestRange (b e : Z) (w : list (Z * Z))
  : option (Exception string) * list (Z * Z) :=
  (None, (b, e) :: w).

(* ================================================================== *)
(** * The viewer: page clicks and the annotation editor *)
(* ================================================================== *)

(** A number the viewer computes: finite, or one of [NaN], [Infinity] and
    [-Infinity], which a division by a zero extent yields. *)
Inductive Num : Type :=
| Finite (q : Q)
| NotFinite.

(** The [PDFAnnotationEditor] class.  The DOM the class touches is part of
    the state: the [toggled] class of the button, the [keyup] listeners the
    editor has on the document, the editor boxes attached to the body. *)
Module Editor.

Definition ENTER_KEY : Z := 13.
Definition ESCAPE_KEY : Z := 27.

(** The payload of a [pageclick] event. *)
Record PageClick : Type := mkPageClick {
  x : Q;
  y : Q;
  offsetX : Num;
  offsetY : Num;
  page : Z
}.

(** A [div] made by [document.createElement]: the order of its creation
    stands for its identity; its style is [top: y px; left: x px]. *)
Record Element : Type := mkElement {
  el_id : nat;
  style_top : Q;
  style_left : Q
}.

(** The arguments of [eventBus.dispatch('createannotation', ...)]. *)
Record CreateAnnotation : Type := mkCreateAnnotation {
  ca_text : string;
  ca_page : option Z;
  ca_coordinates : option (Num * Num)
}.

(** The fields of the editor ([None] is [null]; the textarea [input] is
    its [value]) and the DOM and bus around it. *)
Record State : Type := mkState {
  active : bool;
  editor : option Element;
  input : option string;
  coordinates : option (Num * Num);
  this_page : option Z;
  toggled : bool;
  keyup_listeners : nat;
  body : list Element;
  created : nat;
  dispatched : list CreateAnnotation
}.

(** The constructor, lines 5-17; the button may carry the class already. *)
Definition constructor (buttonToggled : bool) : State :=
  mkState false None None None None buttonToggled 0 [] 0 [].

(** [on()], lines 18-22: the listener added is a fresh function
    ([handleKeyPress.bind(this)]), so every call adds one. *)
Definition on (s : State) : State :=
  mkState true (editor s) (input s) (coordinates s) (this_page s)
          true (S (keyup_listeners s)) (body s) (created s) (dispatched s).

(** [off()], lines 23-27: [removeEventListener] is given
    [this.handleKeyPress], a function that was never added, and removes
    nothing. *)
Definition off (s : State) : State :=
  mkState false (editor s) (input s) (coordinates s) (this_page s)
          false (keyup_listeners s) (body s) (created s) (dispatched s).

(** [toggle()], lines 28-34. *)
Definition toggle (s : State) : State :=
  if active s then off s else on s.

(** [element.remove()]. *)
Definition remove (el : Element) (nodes : list Element) : list Element :=
  filter (fun e => negb (Nat.eqb (el_id e) (el_id el))) nodes.

(** [escapeEditing(submit)], lines 72-86.  With an editor and no input,
    [this.input.value] throws and nothing has changed. *)
Definition escapeEditing (submit : bool) (s : State) : State :=
  match editor s with
  | None => s
  | Some ed =>
      match input s with
      | None => s
      | Some text =>
          mkState (active s) None None None None
                  (toggled s) (keyup_listeners s) (remove ed (body s))
                  (created s)
                  (if submit
                   then (dispatched s
                         ++ [mkCreateAnnotation text (this_page s)
                                                (coordinates s)])%list
                   else dispatched s)
      end
  end.

(** [addEditBox({ x, y, offsetX, offsetY, page })], lines 54-71. *)
Definition addEditBox (e : PageClick) (s : State) : State :=
  let nodes :=
    match editor s with
    | Some ed => remove ed (body s)
    | None => body s
    end in
  let el := mkElement (created s) (y e) (x e) in
  mkState (active s) (Some el) (Some EmptyString)
          (Some (offsetX e, offsetY e)) (Some (page e))
          (toggled s) (keyup_listeners s) (nodes ++ [el])%list
          (S (created s)) (dispatched s).

(** [handlePageClick(e)], lines 44-53. *)
Definition handlePageClick (e : PageClick) (s : State) : State :=
  if negb (active s) then s
  else
    match editor s with
    | Some _ => escapeEditing false s
    | None => addEditBox e s
    end.

Definition has_editor (s : State) : bool :=
  match editor s with Some _ => true | None => false end.

(** [handleKeyPress({ keyCode })], lines 35-43. *)
Definition handleKeyPress (keyCode : Z) (s : State) : State :=
  if (keyCode =? ENTER_KEY) && has_editor s then escapeEditing true s
  else if (keyCode =? ESCAPE_KEY) && has_editor s then escapeEditing false s
  else if keyCode =? ESCAPE_KEY then off s
  else s.

(** A [keyup] on the document runs every listener the editor has there. *)
Definition keyup (keyCode : Z) (s : State) : State :=
  Nat.iter (keyup_listeners s) (handleKeyPress keyCode) s.

(** The user edits the textarea, when there is one. *)
Definition typed (text : string) (s : State) : State :=
  match input s with
  | Some _ =>
      mkState (active s) (editor s) (Some text) (coordinates s) (this_page s)
              (toggled s) (keyup_listeners s) (body s) (created s)
              (dispatched s)
  | None => s
  end.

(** What reaches the editor: a click on the button (the listener of line
    13), a [pageclick] on the bus (line 16), a [keyup] on the document, an
    edit of the textarea. *)
Inductive UIEvent : Type :=
| ButtonClick
| PageClicked (e : PageClick)
| KeyUp (keyCode : Z)
| Typed (text : string).

Definition step (s : State) (ev : UIEvent) : State :=
  match ev with
  | ButtonClick => toggle s
  | PageClicked e => handlePageClick e s
  | KeyUp keyCode => keyup keyCode s
  | Typed text => typed text s
  end.

Definition run (s : State) (evs : list UIEvent) : State :=
  fold_left step evs s.

(** The four fields of an edit box are set together or not at all, and the
    body holds the editor's box and no other. *)
Definition consistent (s : State) : Prop :=
  (editor s = None /\ input s = None /\ coordinates s = None
   /\ this_page s = None /\ body s = [])
  \/ (exists el text c p,
         editor s = Some el /\ input s = Some text
         /\ coordinates s = Some c /\ this_page s = Some p
         /\ body s = [el]).

Definition page_clicks (evs : list UIEvent) : list PageClick :=
  flat_map (fun ev => match ev with PageClicked e => [e] | _ => [] end) evs.

End Editor.

(** The click listener of [PDFPageView], [pdf_page_view.js] lines 108-114. *)
Module PageView.

(** [div.getBoundingClientRect()]. *)
Record DOMRect : Type := mkDOMRect {
  left : Q;
  top : Q;
  width : Q;
  height : Q
}.

Record MouseEvent : Type := mkMouseEvent {
  x : Q;
  y : Q;
  clientX : Q;
  clientY : Q
}.

(** [a / b] on numbers. *)
Definition divide (a b : Q) : Num :=
  if Qeq_bool b 0 then NotFinite else Finite (a / b).

(** [1 - n]. *)
Definition one_minus (n : Num) : Num :=
  match n with
  | Finite q => Finite (1 - q)
  | NotFinite => NotFinite
  end.

(** The listener: what it dispatches as [pageclick] for the page [id]. *)
Definition click (id : Z) (rect : DOMRect) (ev : MouseEvent)
  : Editor.PageClick :=
  let offsetX := divide (clientX ev - left rect) (width rect) in
  let offsetY := one_minus (divide (clientY ev - top rect) (height rect)) in
  Editor.mkPageClick (x ev) (y ev) offsetX offsetY id.

End PageView.

(* ================================================================== *)
(** * Drivers for sequences of updates *)
(* ================================================================== *)

(** A chain of [UpdatePdfManager]s, each built on the one before with the
    next fragment. *)
Definition update_chain (update : PDFDocument -> Bytes -> PDFDocument)
    (m : PdfManager) (doc : PDFDocument) (fragments : list Bytes)
  : PdfManager * PDFDocument :=
  fold_left (fun md fragment =>
               new_UpdatePdfManager update (fst md) fragment (snd md))
            fragments (m, doc).

(** The references [count] writes mint from [Size = n]. *)
Definition minted_from (n : Z) (count : nat) : list Ref :=
  map (fun k => mkRef (n + Z.of_nat k) 0) (seq 0 count).

(** What the editor holds and has dispatched comes from the page clicks
    [clicks]: every dispatched event and the open box carry the page and
    offsets of one of them, and there are no more events and boxes than
    clicks. *)
Definition from_page_click (clicks : list Editor.PageClick)
    (p : option Z) (c : option (Num * Num)) : Prop :=
  exists e, In e clicks
            /\ p = Some (Editor.page e)
            /\ c = Some (Editor.offsetX e, Editor.offsetY e).

Definition dispatch_history (s : Editor.State)
    (clicks : list Editor.PageClick) : Prop :=
  (forall ca, In ca (Editor.dispatched s) ->
      from_page_click clicks (Editor.ca_page ca) (Editor.ca_coordinates ca))
  /\ (Editor.has_editor s = true ->
      from_page_click clicks (Editor.this_page s) (Editor.coordinates s))
  /\ (List.length (Editor.dispatched s)
      + (if Editor.has_editor s then 1 else 0)
      <= List.length clicks)%nat.

(** A run of the editor used as an instance: the tool is switched on, off
    and on again, a page is clicked and a note typed. *)
Definition sampleClick : Editor.PageClick :=
  PageView.click 1 (PageView.mkDOMRect 100 50 600 800)
                 (PageView.mkMouseEvent 400 450 400 450).

Definition sampleEditing : Editor.State :=
  Editor.run (Editor.constructor false)
             [ Editor.ButtonClick; Editor.ButtonClick; Editor.ButtonClick;
               Editor.PageClicked sampleClick; Editor.Typed "note" ].

(** How many of the two ranges [sample_operation] needs are missing. *)
Definition sample_missing (w : list (Z * Z)) : nat :=
  (if resident w 0 10 then 0 else 1) + (if resident w 10 20 then 0 else 1).

(** An operation whose range never becomes resident. *)
Definition stuck_operation (w : list (Z * Z))
  : Completion string Z * list (Z * Z) :=
  (Throw (MissingDataException 0 10), w).

Definition deaf_requestRange (b e : Z) (w : list (Z * Z))
  : option (Exception string) * list (Z * Z) :=
  (None, w).

(** An asynchronous method: it returns a promise that is rejected with a
    missing-data signal while [0, 10) is not resident. *)
Definition async_operation (w : list (Z * Z))
  : Completion string (Returned string Z) * list (Z * Z) :=
  if resident w 0 10 then (Normal (Thenable (Fulfilled 42)), w)
  else (Normal (Thenable (Rejected (MissingDataException 0 10))), w).

(* ================================================================== *)
(** * Properties of the object primitives *)
(* ================================================================== *)

#[local] Arguments String.eqb : simpl never.

Lemma has_In (d : Dict) (k : string) : has d k = true <-> In k (getKeys d).
Proof.
  induction d as [|[k' v] d IH]; simpl.
  - split; [discriminate | tauto].
  - rewrite orb_true_iff, IH, String.eqb_eq. tauto.
Qed.

Lemma has_false_not_In (d : Dict) (k : string) :
  has d k = false <-> ~ In k (getKeys d).
Proof.
  rewrite <- has_In. destruct (has d k); split; congruence.
Qed.

Lemma getRaw_set_same (d : Dict) (k : string) (v : Value) :
  getRaw (set d k v) k = v.
Proof.
  induction d as [|[k' v'] d IH]; simpl.
  - now rewrite String.eqb_refl.
  - destruct (String.eqb k' k) eqn:E; simpl; now rewrite E.
Qed.

Lemma getRaw_set_other (d : Dict) (k k' : string) (v : Value) :
  k <> k' -> getRaw (set d k v) k' = getRaw d k'.
Proof.
  intros Hne. induction d as [|[k0 v0] d IH]; simpl.
  - destruct (String.eqb_spec k k'); congruence.
  - destruct (String.eqb_spec k0 k) as [->|Hk]; simpl.
    + destruct (String.eqb_spec k k'); congruence.
    + now rewrite IH.
Qed.

Lemma has_set_same (d : Dict) (k : string) (v : Value) :
  has (set d k v) k = true.
Proof.
  induction d as [|[k' v'] d IH]; simpl.
  - now rewrite String.eqb_refl.
  - destruct (String.eqb k' k) eqn:E; simpl; rewrite ?E, ?IH;
      auto using orb_true_r.
Qed.

Lemma has_set_other (d : Dict) (k k' : string) (v : Value) :
  k <> k' -> has (set d k v) k' = has d k'.
Proof.
  intros Hne. induction d as [|[k0 v0] d IH]; simpl.
  - destruct (String.eqb_spec k k'); [congruence | reflexivity].
  - destruct (String.eqb_spec k0 k) as [->|Hk]; simpl; [reflexivity|].
    now rewrite IH.
Qed.

(** Setting a key that is not bound appends it. *)
Lemma set_fresh (d : Dict) (k : string) (v : Value) :
  has d k = false -> set d k v = (d ++ [(k, v)])%list.
Proof.
  induction d as [|[k' v'] d IH]; simpl; intros H; [reflexivity|].
  apply orb_false_iff in H as [E H]. rewrite E. now rewrite IH.
Qed.

(** Setting a key keeps the keys and their order when it is bound. *)
Lemma getKeys_set_bound (d : Dict) (k : string) (v : Value) :
  has d k = true -> getKeys (set d k v) = getKeys d.
Proof.
  induction d as [|[k' v'] d IH]; simpl; intros H; [discriminate|].
  destruct (String.eqb k' k) eqn:E; simpl; [reflexivity|].
  simpl in H. now rewrite IH.
Qed.

Lemma wf_dict_empty : wf_dict empty.
Proof. constructor. Qed.

Lemma wf_dict_set (d : Dict) (k : string) (v : Value) :
  wf_dict d -> wf_dict (set d k v).
Proof.
  unfold wf_dict. intros H. destruct (has d k) eqn:E.
  - now rewrite getKeys_set_bound.
  - rewrite set_fresh by assumption. unfold getKeys. rewrite map_app. simpl.
    apply NoDup_app; [assumption | repeat constructor; simpl; tauto |].
    intros k0 Hin [<-|[]]. apply has_false_not_In in E. now apply E.
Qed.

(** On a well-formed dictionary the raw value of a key is the one stored
    beside it. *)
Lemma getRaw_middle (pre suf : Dict) (k : string) (v : Value) :
  ~ In k (getKeys pre) -> getRaw (pre ++ (k, v) :: suf)%list k = v.
Proof.
  induction pre as [|[k' v'] pre IH]; simpl; intros H.
  - now rewrite String.eqb_refl.
  - destruct (String.eqb_spec k' k) as [->|Hk]; [tauto|]. apply IH. tauto.
Qed.

(* ================================================================== *)
(** * The rewritten page dictionary *)
(* ================================================================== *)

Lemma has_filter_not_Annots (d : Dict) :
  has (filter not_Annots d) "Annots" = false.
Proof.
  induction d as [|[k v] d IH]; simpl; [reflexivity|].
  unfold not_Annots at 1. simpl.
  destruct (String.eqb k "Annots") eqn:E; simpl; [assumption|].
  now rewrite E.
Qed.

Lemma In_keys_filter (d : Dict) (k : string) :
  In k (getKeys (filter not_Annots d)) -> In k (getKeys d).
Proof.
  unfold getKeys. rewrite !in_map_iff. intros [e [He Hin]].
  apply filter_In in Hin. exists e. tauto.
Qed.

(** The copy loop, started after the entries [pre] have been visited. *)
Lemma copy_loop (suf pre : Dict) :
  wf_dict (pre ++ suf)%list ->
  fold_left (copyKey (pre ++ suf)%list) (getKeys suf) (filter not_Annots pre)
  = filter not_Annots (pre ++ suf)%list.
Proof.
  revert pre. induction suf as [|[k v] suf IH]; intros pre Hwf; simpl.
  - now rewrite app_nil_r.
  - assert (Hk : ~ In k (getKeys pre)).
    { unfold wf_dict, getKeys in Hwf. rewrite map_app in Hwf. simpl in Hwf.
      apply NoDup_remove_2 in Hwf. intro Hin. apply Hwf, in_or_app. now left. }
    assert (Hstep : copyKey (pre ++ (k, v) :: suf)%list (filter not_Annots pre) k
                    = filter not_Annots (pre ++ [(k, v)])%list).
    { unfold copyKey. rewrite getRaw_middle by assumption.
      rewrite filter_app. cbn [filter].
      change (not_Annots (k, v)) with (negb (String.eqb k "Annots")).
      destruct (String.eqb k "Annots"); simpl.
      - now rewrite app_nil_r.
      - apply set_fresh, has_false_not_In. intro Hin.
        now apply Hk, In_keys_filter. }
    rewrite Hstep.
    replace (pre ++ (k, v) :: suf)%list with ((pre ++ [(k, v)]) ++ suf)%list
      by (now rewrite <- app_assoc).
    apply IH. now rewrite <- app_assoc.
Qed.

(** On a well-formed page dictionary the rewrite is the dictionary without
    its [Annots] entry, followed by the new [Annots] entry. *)
Lemma rewritePageDict_wf (d : Dict) (anns : list Ref) :
  wf_dict d ->
  rewritePageDict d anns
  = (filter not_Annots d ++ [("Annots", VArr (map VRef anns))])%list.
Proof.
  intros Hwf. unfold rewritePageDict.
  pose proof (copy_loop d [] Hwf) as Hloop. simpl in Hloop.
  unfold empty. rewrite Hloop.
  apply set_fresh, has_filter_not_Annots.
Qed.

(** The copy loop never binds [Annots], whatever the dictionary. *)
Lemma copy_loop_no_Annots (d : Dict) (ks : list string) (acc : Dict) :
  has acc "Annots" = false ->
  has (fold_left (copyKey d) ks acc) "Annots" = false.
Proof.
  revert acc. induction ks as [|k ks IH]; intros acc H; simpl; [assumption|].
  apply IH. unfold copyKey.
  destruct (String.eqb_spec k "Annots") as [->|Hk]; simpl; [assumption|].
  now rewrite has_set_other.
Qed.

Lemma getRaw_filter_not_Annots (d : Dict) (k : string) :
  k <> "Annots" -> getRaw (filter not_Annots d) k = getRaw d k.
Proof.
  intros Hk. induction d as [|[k' v] d IH]; simpl; [reflexivity|].
  unfold not_Annots at 1. simpl.
  destruct (String.eqb_spec k' "Annots") as [->|Hk']; simpl.
  - destruct (String.eqb_spec "Annots" k); [congruence | exact IH].
  - now rewrite IH.
Qed.

Lemma getRaw_app_fresh (d : Dict) (k k' : string) (v : Value) :
  k <> k' -> getRaw (d ++ [(k', v)])%list k = getRaw d k.
Proof.
  intros Hk. induction d as [|[k0 v0] d IH]; simpl.
  - destruct (String.eqb_spec k' k); congruence.
  - now rewrite IH.
Qed.

Lemma getKeys_filter_not_Annots (d : Dict) :
  getKeys (filter not_Annots d)
  = filter (fun k => negb (String.eqb k "Annots")) (getKeys d).
Proof.
  induction d as [|[k v] d IH]; simpl; [reflexivity|].
  unfold not_Annots at 1. simpl.
  destruct (String.eqb k "Annots"); simpl; now rewrite IH.
Qed.

Example rewrite_letterPageDict :
  rewritePageDict letterPageDict [mkRef 7 0; mkRef 10 0]
  = [ ("Type", VName "Page");
      ("Parent", VRef (mkRef 2 0));
      ("MediaBox", VArr [VInt 0; VInt 0; VInt 612; VInt 792]);
      ("Contents", VRef (mkRef 4 0));
      ("Annots", VArr [VRef (mkRef 7 0); VRef (mkRef 10 0)]) ].
Proof. reflexivity. Qed.

(* ================================================================== *)
(** * What one write does to the document *)
(* ================================================================== *)

Lemma get_Size_set (t : Dict) (m : Z) :
  get_Size (set t "Size" (VInt m)) = Some m.
Proof. unfold get_Size. now rewrite getRaw_set_same. Qed.

Lemma nth_error_replace_page_same (ps : list Page) (i : nat) (p q : Page) :
  nth_error ps i = Some q -> nth_error (replace_page ps i p) i = Some p.
Proof.
  revert i. induction ps as [|q0 ps IH]; intros [|i]; simpl; try discriminate.
  - reflexivity.
  - apply IH.
Qed.

Lemma nth_error_replace_page_other (ps : list Page) (i j : nat) (p : Page) :
  i <> j -> nth_error (replace_page ps i p) j = nth_error ps j.
Proof.
  revert i j. induction ps as [|q0 ps IH]; intros [|i] [|j] H; simpl;
    try reflexivity; try congruence.
  apply IH. congruence.
Qed.

Lemma getPage_with_page_same (doc : PDFDocument) (i : Z) (p q : Page) :
  getPage doc i = Some q -> getPage (with_page doc i p) i = Some p.
Proof.
  unfold getPage, with_page. simpl. destruct (i <? 0); [discriminate|].
  apply nth_error_replace_page_same.
Qed.

Lemma getPage_Some_nonneg (doc : PDFDocument) (i : Z) (p : Page) :
  getPage doc i = Some p -> 0 <= i.
Proof.
  unfold getPage. destruct (i <? 0) eqn:E; [discriminate|].
  intros _. now apply Z.ltb_ge.
Qed.

Lemma getPage_with_page_other (doc : PDFDocument) (i j : Z) (p : Page) :
  0 <= i -> i <> j -> getPage (with_page doc i p) j = getPage doc j.
Proof.
  unfold getPage, with_page. simpl. intros Hi H.
  destruct (j <? 0) eqn:Ej; [reflexivity|].
  apply Z.ltb_ge in Ej. apply nth_error_replace_page_other. lia.
Qed.

(** The write when the page resolves. *)
Lemma writeAnnotation_writer_fulfilled (doc : PDFDocument)
    (a : AnnotationProperties) (len n : Z) (p : Page) :
  get_Size (trailer doc) = Some n ->
  getPage doc (page a) = Some p ->
  writeAnnotation_writer doc a len
  = Some (Fulfilled
            (writeUpdate (mkWriter None (Some len) [])
               (set (trailer doc) "Size" (VInt (n + 1))) (startXRef doc)
               (mkRef n 0)
               (annotationDict a (push_annotation p (mkRef n 0)))
               (ref p)
               (rewritePageDict (pageDict p) (annotations p ++ [mkRef n 0]))),
          with_page
            (with_trailer doc (set (trailer doc) "Size" (VInt (n + 1))))
            (page a) (push_annotation p (mkRef n 0))).
Proof.
  intros HS HP. unfold writeAnnotation_writer. rewrite HS.
  change (getPage (with_trailer doc (set (trailer doc) "Size" (VInt (n + 1))))
                  (page a)) with (getPage doc (page a)).
  now rewrite HP.
Qed.

(** The write when the page does not resolve. *)
Lemma writeAnnotation_writer_rejected (doc : PDFDocument)
    (a : AnnotationProperties) (len n : Z) :
  get_Size (trailer doc) = Some n ->
  getPage doc (page a) = None ->
  writeAnnotation_writer doc a len
  = Some (Rejected (PageResolutionFailed (page a)),
          with_trailer doc (set (trailer doc) "Size" (VInt (n + 1)))).
Proof.
  intros HS HP. unfold writeAnnotation_writer. rewrite HS.
  change (getPage (with_trailer doc (set (trailer doc) "Size" (VInt (n + 1))))
                  (page a)) with (getPage doc (page a)).
  now rewrite HP.
Qed.

Lemma writeUpdate_calls (w : PDFDataWriter) (t : Dict) (sx : Z)
    (r : Ref) (d : Dict) (pr : Ref) (pd : Dict) :
  w_calls (writeUpdate w t sx r d pr pd)
  = (w_calls w ++ [SetTrailer t; SetStartXRef sx; StartObj r; AppendDict d;
                   EndObj; StartObj pr; AppendDict pd; EndObj;
                   AppendTrailer])%list.
Proof.
  unfold writeUpdate, call. simpl. now rewrite <- !app_assoc.
Qed.


(** The bytes are rendered from the builder, and from nothing else. *)
Lemma writeAnnotation_renders (toUint8Array : PDFDataWriter -> Bytes)
    (doc : PDFDocument) (a : AnnotationProperties) (len : Z) :
  writeAnnotation toUint8Array doc a len
  = option_map (fun rd => (settle_bytes toUint8Array (fst rd), snd rd))
               (writeAnnotation_writer doc a len).
Proof.
  unfold writeAnnotation.
  destruct (writeAnnotation_writer doc a len) as [[r d]|]; reflexivity.
Qed.

Lemma annotateDocument_renders (toUint8Array : PDFDataWriter -> Bytes)
    (m : PdfManager) (doc : PDFDocument) (a : AnnotationProperties) :
  annotateDocument toUint8Array m doc a
  = option_map (fun rd => (settle_bytes toUint8Array (fst rd), snd rd))
               (annotateDocument_writer m doc a).
Proof.
  unfold annotateDocument, annotateDocument_writer.
  destruct (onLoadedStream m); [apply writeAnnotation_renders | reflexivity].
Qed.

(** Every result of a write is one of the two above. *)
Lemma writeAnnotation_writer_inv (doc : PDFDocument)
    (a : AnnotationProperties) (len : Z)
    (r : Promise Failure PDFDataWriter) (doc' : PDFDocument) :
  writeAnnotation_writer doc a len = Some (r, doc') ->
  exists n, get_Size (trailer doc) = Some n
    /\ get_Size (trailer doc') = Some (n + 1)
    /\ ((exists p, getPage doc (page a) = Some p
           /\ r = Fulfilled
                    (writeUpdate (mkWriter None (Some len) [])
                       (set (trailer doc) "Size" (VInt (n + 1)))
                       (startXRef doc) (mkRef n 0)
                       (annotationDict a p) (ref p)
                       (rewritePageDict (pageDict p)
                                        (annotations p ++ [mkRef n 0])))
           /\ getPage doc' (page a) = Some (push_annotation p (mkRef n 0)))
        \/ (getPage doc (page a) = None
            /\ r = Rejected (PageResolutionFailed (page a))
            /\ pages doc' = pages doc)).
Proof.
  intros H. destruct (get_Size (trailer doc)) as [n|] eqn:HS.
  2: { unfold writeAnnotation_writer in H. rewrite HS in H. discriminate. }
  exists n. split; [reflexivity|].
  destruct (getPage doc (page a)) as [p|] eqn:HP.
  - rewrite (writeAnnotation_writer_fulfilled doc a len n p HS HP) in H.
    injection H as <- <-. split; [apply get_Size_set|].
    left. exists p. repeat split.
    now apply getPage_with_page_same with (q := p).
  - rewrite (writeAnnotation_writer_rejected doc a len n HS HP) in H.
    injection H as <- <-. split; [apply get_Size_set|].
    right. repeat split.
Qed.

(* ================================================================== *)
(** * The page dictionary a write hands to the writer *)
(* ================================================================== *)

(** C4.  For a page dictionary (no key bound twice), the page dictionary the
    write hands to the writer is the original without its [Annots] entry,
    every other key bound to the original's raw value and in the original
    order, followed by [Annots] bound to the updated annotation sequence; the
    page object in the document still holds the original dictionary. *)
Theorem rewritten_page_dict_keeps_all_but_Annots :
  forall (doc : PDFDocument) (a : AnnotationProperties) (len n : Z) (p : Page),
    get_Size (trailer doc) = Some n ->
    getPage doc (page a) = Some p ->
    wf_dict (pageDict p) ->
    exists w doc' newAnnotationDict newPageDict p',
      writeAnnotation_writer doc a len = Some (Fulfilled w, doc')
      /\ appended_dicts (w_calls w) = [newAnnotationDict; newPageDict]
      /\ started_objs (w_calls w) = [mkRef n 0; ref p]
      /\ newPageDict
         = (filter not_Annots (pageDict p)
            ++ [("Annots", VArr (map VRef (annotations p ++ [mkRef n 0])))])%list
      /\ getKeys newPageDict
         = (filter (fun k => negb (String.eqb k "Annots")) (getKeys (pageDict p))
            ++ ["Annots"])%list
      /\ (forall k, k <> "Annots" ->
            getRaw newPageDict k = getRaw (pageDict p) k)
      /\ getRaw newPageDict "Annots"
         = VArr (map VRef (annotations p ++ [mkRef n 0]))
      /\ getPage doc' (page a) = Some p'
      /\ pageDict p' = pageDict p.
Proof.
  intros doc a len n p HS HP Hwf.
  eexists _, _, _, _, (push_annotation p (mkRef n 0)).
  split; [apply (writeAnnotation_writer_fulfilled doc a len n p HS HP)|].
  rewrite writeUpdate_calls. simpl.
  split; [reflexivity|]. split; [reflexivity|].
  rewrite (rewritePageDict_wf _ _ Hwf).
  split; [reflexivity|].
  split.
  { unfold getKeys at 1. rewrite map_app. simpl.
    f_equal. apply getKeys_filter_not_Annots. }
  split.
  { intros k Hk. rewrite getRaw_app_fresh by assumption.
    now apply getRaw_filter_not_Annots. }
  split.
  { rewrite <- (set_fresh _ _ _ (has_filter_not_Annots (pageDict p))).
    apply getRaw_set_same. }
  split; [|reflexivity].
  now apply getPage_with_page_same with (q := p).
Qed.

Lemma wf_letterPageDict : wf_dict letterPageDict.
Proof.
  unfold wf_dict. simpl.
  repeat (constructor; [simpl; intuition discriminate|]). constructor.
Defined.

Lemma rewritten_page_dict_keeps_all_but_Annots_witness :
  exists w doc' newAnnotationDict newPageDict p',
    writeAnnotation_writer sampleDocument sampleAnnotation 2000
    = Some (Fulfilled w, doc')
    /\ appended_dicts (w_calls w) = [newAnnotationDict; newPageDict]
    /\ started_objs (w_calls w) = [mkRef 10 0; ref letterPage]
    /\ newPageDict
       = (filter not_Annots (pageDict letterPage)
          ++ [("Annots",
               VArr (map VRef (annotations letterPage ++ [mkRef 10 0])))])%list
    /\ getKeys newPageDict
       = (filter (fun k => negb (String.eqb k "Annots"))
                 (getKeys (pageDict letterPage))
          ++ ["Annots"])%list
    /\ (forall k, k <> "Annots" ->
          getRaw newPageDict k = getRaw (pageDict letterPage) k)
    /\ getRaw newPageDict "Annots"
       = VArr (map VRef (annotations letterPage ++ [mkRef 10 0]))
    /\ getPage doc' (page sampleAnnotation) = Some p'
    /\ pageDict p' = pageDict letterPage.
Proof.
  apply (rewritten_page_dict_keeps_all_but_Annots
           sampleDocument sampleAnnotation 2000 10 letterPage).
  - reflexivity.
  - reflexivity.
  - exact wf_letterPageDict.
Defined.

(** C9.  In the page dictionary a write hands to the writer, [Annots] is the
    last key and is bound nowhere before, wherever the original bound it and
    whether it bound it at all; so are the keys of every [rewritePageDict]. *)
Theorem Annots_is_the_last_key :
  (forall (d : Dict) (anns : list Ref),
      exists rest,
        getKeys (rewritePageDict d anns) = (rest ++ ["Annots"])%list
        /\ ~ In "Annots" rest)
  /\ (forall doc a len w doc',
        writeAnnotation_writer doc a len = Some (Fulfilled w, doc') ->
        exists newAnnotationDict newPageDict rest,
          appended_dicts (w_calls w) = [newAnnotationDict; newPageDict]
          /\ getKeys newPageDict = (rest ++ ["Annots"])%list
          /\ ~ In "Annots" rest)
  /\ (forall w0 doc a w doc',
        inline_write w0 doc a = Some (Fulfilled w, doc') ->
        exists newAnnotationDict newPageDict rest,
          appended_dicts (w_calls w)
          = (appended_dicts (w_calls w0)
             ++ [newAnnotationDict; newPageDict])%list
          /\ getKeys newPageDict = (rest ++ ["Annots"])%list
          /\ ~ In "Annots" rest).
Proof.
  assert (core : forall (d : Dict) (anns : list Ref),
             exists rest,
               getKeys (rewritePageDict d anns) = (rest ++ ["Annots"])%list
               /\ ~ In "Annots" rest).
  { intros d anns. unfold rewritePageDict.
    pose proof (copy_loop_no_Annots d (getKeys d) empty eq_refl) as Hno.
    exists (getKeys (fold_left (copyKey d) (getKeys d) empty)). split.
    - rewrite set_fresh by assumption. unfold getKeys. now rewrite map_app.
    - now apply has_false_not_In. }
  split; [exact core|]. split.
  - intros doc a len w doc' H.
    apply writeAnnotation_writer_inv in H
      as [n [_ [_ [[p [_ [Hr _]]] | [_ [Hr _]]]]]]; [|discriminate].
    injection Hr as ->.
    destruct (core (pageDict p) (annotations p ++ [mkRef n 0])%list)
      as [rest [Hk Hn]].
    eexists _, _, rest. rewrite writeUpdate_calls. simpl.
    split; [reflexivity|]. split; assumption.
  - intros w0 doc a w doc' H. unfold inline_write in H.
    destruct (get_Size (trailer doc)) as [n|]; [|discriminate].
    cbv zeta in H.
    change (getPage (with_trailer doc (set (trailer doc) "Size" (VInt (n + 1))))
                    (page a)) with (getPage doc (page a)) in H.
    destruct (getPage doc (page a)) as [p|]; [|discriminate].
    injection H as <- _.
    destruct (core (pageDict p) (annotations p ++ [mkRef n 0])%list)
      as [rest [Hk Hn]].
    eexists _, _, rest. rewrite writeUpdate_calls.
    split; [|split; [exact Hk | exact Hn]].
    clear. induction (w_calls w0) as [|c cs IH]; [reflexivity|].
    destruct c; simpl; rewrite IH; reflexivity.
Qed.

Lemma Annots_is_the_last_key_witness :
  exists w doc',
    writeAnnotation_writer sampleDocument sampleAnnotation 2000
    = Some (Fulfilled w, doc')
    /\ exists newAnnotationDict newPageDict rest,
         appended_dicts (w_calls w) = [newAnnotationDict; newPageDict]
         /\ getKeys newPageDict = (rest ++ ["Annots"])%list
         /\ ~ In "Annots" rest.
Proof.
  eexists _, _. split.
  - apply (writeAnnotation_writer_fulfilled
             sampleDocument sampleAnnotation 2000 10 letterPage);
      reflexivity.
  - eapply (proj1 (proj2 Annots_is_the_last_key)
              sampleDocument sampleAnnotation 2000).
    apply (writeAnnotation_writer_fulfilled
             sampleDocument sampleAnnotation 2000 10 letterPage);
      reflexivity.
Defined.

(* ================================================================== *)
(** * The page's annotation sequence *)
(* ================================================================== *)

(** C6, as the specification states it, fails: the write of the sample
    annotation leaves page 0 with two annotations where it had one. *)
Lemma write_grows_page_annotations :
  ~ annotations_left_unchanged sampleDocument sampleAnnotation 2000.
Proof.
  intros H.
  pose proof (H _ _ (writeAnnotation_writer_fulfilled
                       sampleDocument sampleAnnotation 2000 10 letterPage
                       eq_refl eq_refl) 0) as H0.
  vm_compute in H0. discriminate H0.
Qed.

(** C6, amended.  The write appends the new reference to the page's own
    annotation sequence: afterwards the page the document resolves holds the
    former sequence followed by the new reference, with the reference, view
    and dictionary it had; every other page is as before; and the [Annots]
    entry handed to the writer is that grown sequence. *)
Theorem write_appends_to_page_annotations :
  forall (doc : PDFDocument) (a : AnnotationProperties) (len n : Z) (p : Page),
    get_Size (trailer doc) = Some n ->
    getPage doc (page a) = Some p ->
    exists w doc' newAnnotationDict newPageDict,
      writeAnnotation_writer doc a len = Some (Fulfilled w, doc')
      /\ getPage doc' (page a)
         = Some (mkPage (ref p) (pageDict p) (view p)
                        (annotations p ++ [mkRef n 0]))
      /\ (forall j, j <> page a -> getPage doc' j = getPage doc j)
      /\ appended_dicts (w_calls w) = [newAnnotationDict; newPageDict]
      /\ getRaw newPageDict "Annots"
         = VArr (map VRef (annotations p ++ [mkRef n 0])).
Proof.
  intros doc a len n p HS HP.
  eexists _, _, _, _.
  split; [apply (writeAnnotation_writer_fulfilled doc a len n p HS HP)|].
  split; [now apply getPage_with_page_same with (q := p)|].
  split.
  { intros j Hj. rewrite getPage_with_page_other.
    - reflexivity.
    - now apply getPage_Some_nonneg with (doc := doc) (p := p).
    - congruence. }
  rewrite writeUpdate_calls. simpl. split; [reflexivity|].
  unfold rewritePageDict. apply getRaw_set_same.
Qed.

Lemma write_appends_to_page_annotations_witness :
  exists w doc' newAnnotationDict newPageDict,
    writeAnnotation_writer sampleDocument sampleAnnotation 2000
    = Some (Fulfilled w, doc')
    /\ getPage doc' (page sampleAnnotation)
       = Some (mkPage (ref letterPage) (pageDict letterPage) (view letterPage)
                      (annotations letterPage ++ [mkRef 10 0]))
    /\ (forall j, j <> page sampleAnnotation ->
          getPage doc' j = getPage sampleDocument j)
    /\ appended_dicts (w_calls w) = [newAnnotationDict; newPageDict]
    /\ getRaw newPageDict "Annots"
       = VArr (map VRef (annotations letterPage ++ [mkRef 10 0])).
Proof.
  apply (write_appends_to_page_annotations
           sampleDocument sampleAnnotation 2000 10 letterPage); reflexivity.
Defined.

(* ================================================================== *)
(** * A page that does not resolve *)
(* ================================================================== *)

(** Whatever the document, a write whose page does not resolve is rejected
    with that failure and leaves [Size] one larger than it found it. *)
Lemma rejected_write_advances_Size (doc : PDFDocument)
    (a : AnnotationProperties) (len n : Z) :
  get_Size (trailer doc) = Some n ->
  getPage doc (page a) = None ->
  exists doc',
    writeAnnotation_writer doc a len
    = Some (Rejected (PageResolutionFailed (page a)), doc')
    /\ get_Size (trailer doc') = Some (n + 1)
    /\ pages doc' = pages doc
    /\ startXRef doc' = startXRef doc.
Proof.
  intros HS HP. eexists. split.
  - apply (writeAnnotation_writer_rejected doc a len n HS HP).
  - simpl. split; [apply get_Size_set|]. split; reflexivity.
Qed.

(** C5, evaluated.  The sample document has two pages and [Size] 10; the
    request names page 7.  The promise is rejected, and the trailer the
    document is left with has [Size] 11. *)
Theorem failed_page_resolution_advances_Size :
  forall toUint8Array : PDFDataWriter -> Bytes,
    get_Size (trailer sampleDocument) = Some 10
    /\ getPage sampleDocument (page missingPageAnnotation) = None
    /\ annotateDocument toUint8Array (LocalPdfManager sampleBytes)
                        sampleDocument missingPageAnnotation
       = Some (Rejected (PageResolutionFailed 7),
               mkDocument [ ("Size", VInt 11); ("Root", VRef (mkRef 1 0)) ]
                          1234 [letterPage; offsetPage])
    /\ ~ failure_commits_nothing sampleDocument missingPageAnnotation 2000.
Proof.
  intros toUint8Array. repeat split.
  intros H.
  pose proof (H _ _ (writeAnnotation_writer_rejected
                       sampleDocument missingPageAnnotation 2000 10
                       eq_refl eq_refl)) as H0.
  vm_compute in H0. discriminate H0.
Qed.

(** A write settles one way or the other: with the bytes rendered from a
    builder that received the whole chain of calls, or with a failure. *)
Lemma write_is_all_or_nothing (toUint8Array : PDFDataWriter -> Bytes)
    (doc : PDFDocument) (a : AnnotationProperties) (len : Z)
    (r : Promise Failure Bytes) (doc' : PDFDocument) :
  writeAnnotation toUint8Array doc a len = Some (r, doc') ->
  (exists w p n,
      r = Fulfilled (toUint8Array w)
      /\ getPage doc (page a) = Some p
      /\ w_calls w
         = [SetTrailer (trailer doc'); SetStartXRef (startXRef doc);
            StartObj (mkRef n 0); AppendDict (annotationDict a p); EndObj;
            StartObj (ref p);
            AppendDict (rewritePageDict (pageDict p)
                                        (annotations p ++ [mkRef n 0]));
            EndObj; AppendTrailer])
  \/ r = Rejected (PageResolutionFailed (page a)).
Proof.
  rewrite writeAnnotation_renders.
  destruct (writeAnnotation_writer doc a len) as [[r0 d0]|] eqn:E;
    [|discriminate].
  simpl. intros H. injection H as <- <-.
  destruct (get_Size (trailer doc)) as [n|] eqn:HS.
  2: { unfold writeAnnotation_writer in E. rewrite HS in E. discriminate. }
  destruct (getPage doc (page a)) as [p|] eqn:HP.
  - rewrite (writeAnnotation_writer_fulfilled doc a len n p HS HP) in E.
    injection E as <- <-. left. exists
      (writeUpdate (mkWriter None (Some len) [])
         (set (trailer doc) "Size" (VInt (n + 1))) (startXRef doc)
         (mkRef n 0) (annotationDict a (push_annotation p (mkRef n 0)))
         (ref p)
         (rewritePageDict (pageDict p) (annotations p ++ [mkRef n 0]))), p, n.
    repeat split.
  - rewrite (writeAnnotation_writer_rejected doc a len n HS HP) in E.
    injection E as <- <-. now right.
Qed.

(* ================================================================== *)
(** * The annotation dictionary *)
(* ================================================================== *)

Lemma Qtrunc_zero (v : Q) : Qeq_bool v 0 = true -> Qtrunc v = 0.
Proof.
  intros H. apply Qeq_bool_eq in H. unfold Qeq in H. simpl in H.
  unfold Qtrunc. replace (Qnum v) with 0 by lia. apply Z.quot_0_l. lia.
Qed.

Lemma parseInt_plain_decimal (v : Q) :
  plain_decimal v = true -> parseInt v = Qtrunc v.
Proof.
  unfold plain_decimal, parseInt. intros H.
  destruct (Qeq_bool v 0) eqn:E.
  - symmetry. now apply Qtrunc_zero.
  - simpl in H. now rewrite H.
Qed.


(** The rectangle [annotationDict] stores. *)
Lemma annotationDict_Rect (a : AnnotationProperties) (p : Page) :
  getRaw (annotationDict a p) "Rect"
  = rectOf (parseInt (x (coords a) * view_at (view p) 2))
           (parseInt (y (coords a) * view_at (view p) 3)).
Proof. unfold annotationDict. destruct (author a); reflexivity. Qed.

Example parseInt_half_of_612 : parseInt ((1 # 2) * 612) = 306.
Proof. vm_compute. reflexivity. Qed.

Example parseInt_of_a_negative : parseInt (- (613 # 2)) = -306.
Proof. vm_compute. reflexivity. Qed.

Example parseInt_of_1e_minus_6 : parseInt (1 # 1000000) = 0.
Proof. vm_compute. reflexivity. Qed.

Example parseInt_of_612e_minus_9 : parseInt ((1 # 1000000000) * 612) = 6.
Proof. vm_compute. reflexivity. Qed.

Example parseInt_of_3e21 : parseInt (inject_Z (3 * 10 ^ 21)) = 3.
Proof. vm_compute. reflexivity. Qed.

Example is_double_half_of_612 : is_double ((1 # 2) * 612) = true.
Proof. vm_compute. reflexivity. Qed.

(** The double nearest to 1/3 is 6004799503160661 / 2^54.  Its exact
    product with 612 lies just below 204 and needs more than 53 bits; the
    source rounds it to 204 before [parseInt], the exact product truncates
    to 203. *)
Example is_double_rejects_a_rounded_product :
  is_double (6004799503160661 # 18014398509481984) = true
  /\ is_double ((6004799503160661 # 18014398509481984) * 612) = false
  /\ parseInt ((6004799503160661 # 18014398509481984) * 612) = 203.
Proof. vm_compute. repeat split. Qed.

(** The dictionary [annotationDict] builds binds [Type] to the name
    [Annot], [Subtype] to the name [Text], [Rect] to the rectangle computed
    from the request and the page, and [Contents] to the request's contents;
    it binds [T], to the author, exactly when the request has one; it binds
    nothing else; and it is the first dictionary a fulfilled write hands to
    the writer, under the reference it minted. *)
Theorem annotationDict_entries :
  forall (a : AnnotationProperties) (p : Page),
    getRaw (annotationDict a p) "Type" = VName "Annot"
    /\ getRaw (annotationDict a p) "Subtype" = VName "Text"
    /\ getRaw (annotationDict a p) "Rect"
       = rectOf (parseInt (x (coords a) * view_at (view p) 2))
                (parseInt (y (coords a) * view_at (view p) 3))
    /\ getRaw (annotationDict a p) "Contents" = VStr (contents a)
    /\ (has (annotationDict a p) "T" = true <-> author a <> None)
    /\ (forall s, author a = Some s ->
          getRaw (annotationDict a p) "T" = VStr s)
    /\ getKeys (annotationDict a p)
       = (["Type"; "Rect"; "Subtype"; "Contents"]
          ++ match author a with Some _ => ["T"] | None => [] end)%list
    /\ (forall doc len w doc',
          writeAnnotation_writer doc a len = Some (Fulfilled w, doc') ->
          exists p0 n,
            getPage doc (page a) = Some p0
            /\ get_Size (trailer doc) = Some n
            /\ hd_error (started_objs (w_calls w)) = Some (mkRef n 0)
            /\ hd_error (appended_dicts (w_calls w))
               = Some (annotationDict a p0)).
Proof.
  intros a p.
  assert (Hlink : forall doc len w doc',
             writeAnnotation_writer doc a len = Some (Fulfilled w, doc') ->
             exists p0 n,
               getPage doc (page a) = Some p0
               /\ get_Size (trailer doc) = Some n
               /\ hd_error (started_objs (w_calls w)) = Some (mkRef n 0)
               /\ hd_error (appended_dicts (w_calls w))
                  = Some (annotationDict a p0)).
  { intros doc len w doc' H.
    apply writeAnnotation_writer_inv in H
      as [n [HS [_ [[p0 [HP [Hr _]]] | [_ [Hr _]]]]]]; [|discriminate].
    injection Hr as ->. exists p0, n. rewrite writeUpdate_calls.
    repeat split; try assumption; reflexivity. }
  repeat match goal with |- _ /\ _ => split end; try exact Hlink;
    unfold annotationDict; destruct (author a) as [s|];
    try reflexivity.
  - split; [discriminate | reflexivity].
  - split; [discriminate | intros H; now elim H].
  - intros s' H. now injection H as <-.
  - discriminate.
Qed.

Lemma annotationDict_entries_witness :
  exists w doc',
    writeAnnotation_writer sampleDocument sampleAnnotation 2000
    = Some (Fulfilled w, doc')
    /\ exists p0 n,
         getPage sampleDocument (page sampleAnnotation) = Some p0
         /\ get_Size (trailer sampleDocument) = Some n
         /\ hd_error (started_objs (w_calls w)) = Some (mkRef n 0)
         /\ hd_error (appended_dicts (w_calls w))
            = Some (annotationDict sampleAnnotation p0).
Proof.
  eexists _, _. split.
  - apply (writeAnnotation_writer_fulfilled
             sampleDocument sampleAnnotation 2000 10 letterPage);
      reflexivity.
  - eapply (proj2 (proj2 (proj2 (proj2 (proj2 (proj2 (proj2
              (annotationDict_entries sampleAnnotation letterPage))))))) ).
    apply (writeAnnotation_writer_fulfilled
             sampleDocument sampleAnnotation 2000 10 letterPage);
      reflexivity.
Defined.

Example annotationDict_with_author :
  annotationDict sampleAnnotation letterPage
  = [ ("Type", VName "Annot");
      ("Rect", VArr [VInt 306; VInt 396; VInt 318; VInt 406]);
      ("Subtype", VName "Text");
      ("Contents", VStr "hello");
      ("T", VStr "A") ].
Proof. vm_compute. reflexivity. Qed.

Example annotationDict_without_author :
  annotationDict anonymousAnnotation letterPage
  = [ ("Type", VName "Annot");
      ("Rect", VArr [VInt 306; VInt 396; VInt 318; VInt 406]);
      ("Subtype", VName "Text");
      ("Contents", VStr "hello") ].
Proof. vm_compute. reflexivity. Qed.


(** The older write path builds [Type], [Subtype], [Contents] and [Rect],
    in that order, and never binds [T], whatever author the request has. *)
Lemma inline_write_ignores_author (w0 : PDFDataWriter) (doc : PDFDocument)
    (a : AnnotationProperties) (w : PDFDataWriter) (doc' : PDFDocument) :
  w_calls w0 = [] ->
  inline_write w0 doc a = Some (Fulfilled w, doc') ->
  exists p newPageDict,
    getPage doc (page a) = Some p
    /\ appended_dicts (w_calls w)
       = [ [ ("Type", VName "Annot");
             ("Subtype", VName "Text");
             ("Contents", VStr (contents a));
             ("Rect", rectOf (parseInt (x (coords a) * view_at (view p) 2))
                             (parseInt (y (coords a) * view_at (view p) 3))) ];
           newPageDict ].
Proof.
  intros H0 H. unfold inline_write in H.
  destruct (get_Size (trailer doc)) as [n|]; [|discriminate].
  cbv zeta in H.
  change (getPage (with_trailer doc (set (trailer doc) "Size" (VInt (n + 1))))
                  (page a)) with (getPage doc (page a)) in H.
  destruct (getPage doc (page a)) as [p|]; [|discriminate].
  injection H as <- _. exists p. eexists. split; [reflexivity|].
  rewrite writeUpdate_calls, H0. reflexivity.
Qed.

(* ================================================================== *)
(** * The rectangle *)
(* ================================================================== *)

(** C1, evaluated.  The view of [offsetPage] is [[10, 0, 622, 792]]: its
    width is 612.  For the coordinates (1/2, 1/2) the rectangle the code
    stores starts at 311 = trunc(622 / 2), the rectangle of section 8 at
    306 = trunc(612 / 2). *)
Theorem Rect_is_measured_from_the_upper_corner :
  getRaw (annotationDict offsetAnnotation offsetPage) "Rect"
  = VArr [VInt 311; VInt 396; VInt 323; VInt 406]
  /\ specified_Rect (coords offsetAnnotation) (view offsetPage)
     = VArr [VInt 306; VInt 396; VInt 318; VInt 406]
  /\ Qeq (viewWidth (view offsetPage)) 612
  /\ getRaw (annotationDict offsetAnnotation offsetPage) "Rect"
     <> specified_Rect (coords offsetAnnotation) (view offsetPage).
Proof.
  repeat split; try (vm_compute; reflexivity).
  vm_compute. discriminate.
Qed.

(** A product below 1e-6 is printed with an exponent, and [parseInt] reads
    its leading digit: 612e-9 gives 6 where truncation gives 0. *)
Lemma Rect_of_a_tiny_fraction :
  getRaw (annotationDict tinyAnnotation letterPage) "Rect"
  = VArr [VInt 6; VInt 396; VInt 18; VInt 406]
  /\ specified_Rect (coords tinyAnnotation) (view letterPage)
     = VArr [VInt 0; VInt 396; VInt 12; VInt 406].
Proof. split; vm_compute; reflexivity. Qed.



(** The end-to-end scenario of section 8. *)
Example end_to_end_scenario :
  exists w doc',
    writeAnnotation_writer sampleDocument sampleAnnotation 2000
    = Some (Fulfilled w, doc')
    /\ started_objs (w_calls w) = [mkRef 10 0; mkRef 3 0]
    /\ getRaw (nth 0 (appended_dicts (w_calls w)) empty) "Rect"
       = VArr [VInt 306; VInt 396; VInt 318; VInt 406]
    /\ getRaw (nth 1 (appended_dicts (w_calls w)) empty) "Annots"
       = VArr [VRef (mkRef 7 0); VRef (mkRef 10 0)]
    /\ get_Size (trailer doc') = Some 11.
Proof.
  eexists _, _. split; [vm_compute; reflexivity|].
  repeat split; vm_compute; reflexivity.
Qed.

(* ================================================================== *)
(** * Object numbers *)
(* ================================================================== *)

Lemma byteLength_app (a b : Bytes) :
  byteLength (a ++ b)%list = byteLength a + byteLength b.
Proof. unfold byteLength. rewrite length_app. lia. Qed.

(** One write: it always settles, leaves [Size] one larger, and when it is
    fulfilled the reference it minted carries the [Size] it found. *)
Lemma write_step (doc : PDFDocument) (a : AnnotationProperties) (len n : Z) :
  get_Size (trailer doc) = Some n ->
  exists r doc1,
    writeAnnotation_writer doc a len = Some (r, doc1)
    /\ get_Size (trailer doc1) = Some (n + 1)
    /\ forall w, r = Fulfilled w ->
         minted w = Some (mkRef n 0) /\ w_byteLength w = Some len.
Proof.
  intros HS. destruct (getPage doc (page a)) as [p|] eqn:HP.
  - eexists _, _. split;
      [apply (writeAnnotation_writer_fulfilled doc a len n p HS HP)|].
    split; [apply get_Size_set|].
    intros w Hw. injection Hw as <-. unfold minted.
    rewrite writeUpdate_calls. split; reflexivity.
  - eexists _, _. split;
      [apply (writeAnnotation_writer_rejected doc a len n HS HP)|].
    split; [apply get_Size_set|]. discriminate.
Qed.

(** C2.  A write mints the reference ([Size] as read, generation 0) and
    leaves [Size] one larger.  So the second of two writes on one document
    mints the number after the first's; so does a write through an
    [UpdatePdfManager] built from the first write's bytes, when the re-parse
    leaves the trailer with the [Size] the first write wrote; and the k-th
    write of any sequence mints the initial [Size] plus k, after which [Size]
    is the initial one plus the number of writes. *)
Theorem Size_allocates_object_numbers :
  forall (doc : PDFDocument) (n : Z),
    get_Size (trailer doc) = Some n ->
    (forall a len,
        exists r doc1,
          writeAnnotation_writer doc a len = Some (r, doc1)
          /\ get_Size (trailer doc1) = Some (n + 1)
          /\ forall w, r = Fulfilled w -> minted w = Some (mkRef n 0))
    /\ (forall a1 len1 a2 len2 w1 doc1,
          writeAnnotation_writer doc a1 len1 = Some (Fulfilled w1, doc1) ->
          exists r2 doc2,
            writeAnnotation_writer doc1 a2 len2 = Some (r2, doc2)
            /\ get_Size (trailer doc2) = Some (n + 2)
            /\ minted w1 = Some (mkRef n 0)
            /\ forall w2, r2 = Fulfilled w2 ->
                 minted w2 = Some (mkRef (n + 1) 0))
    /\ (forall (toUint8Array : PDFDataWriter -> Bytes)
               (update : PDFDocument -> Bytes -> PDFDocument)
               oldPdfManager oldBytes a1 a2 w1 doc1,
          onLoadedStream oldPdfManager = Fulfilled oldBytes ->
          annotateDocument_writer oldPdfManager doc a1
          = Some (Fulfilled w1, doc1) ->
          get_Size (trailer (update doc1 (oldBytes ++ toUint8Array w1)%list))
          = Some (n + 1) ->
          exists r2 doc2,
            annotateDocument_writer
              (fst (new_UpdatePdfManager update oldPdfManager
                                         (toUint8Array w1) doc1))
              (snd (new_UpdatePdfManager update oldPdfManager
                                         (toUint8Array w1) doc1))
              a2
            = Some (r2, doc2)
            /\ get_Size (trailer doc2) = Some (n + 2)
            /\ minted w1 = Some (mkRef n 0)
            /\ forall w2, r2 = Fulfilled w2 ->
                 minted w2 = Some (mkRef (n + 1) 0)
                 /\ w_byteLength w2
                    = Some (byteLength oldBytes
                            + byteLength (toUint8Array w1)))
    /\ (forall requests,
          exists rs doc',
            write_all doc requests = Some (rs, doc')
            /\ List.length rs = List.length requests
            /\ get_Size (trailer doc')
               = Some (n + Z.of_nat (List.length requests))
            /\ forall i w, nth_error rs i = Some (Fulfilled w) ->
                 minted w = Some (mkRef (n + Z.of_nat i) 0)).
Proof.
  intros doc n HS. split; [|split; [|split]].
  - intros a len.
    destruct (write_step doc a len n HS) as [r [doc1 [H1 [H2 H3]]]].
    exists r, doc1. split; [assumption|]. split; [assumption|].
    intros w Hw. now apply H3.
  - intros a1 len1 a2 len2 w1 doc1 H1.
    destruct (write_step doc a1 len1 n HS) as [r [d [E1 [E2 E3]]]].
    rewrite H1 in E1. injection E1 as <- <-.
    destruct (write_step doc1 a2 len2 (n + 1) E2) as [r2 [doc2 [F1 [F2 F3]]]].
    exists r2, doc2. split; [assumption|].
    split; [rewrite F2; f_equal; lia|].
    split; [now apply E3|]. intros w2 Hw. now apply F3.
  - intros toUint8Array update oldPdfManager oldBytes a1 a2 w1 doc1 HL H1 HU.
    unfold annotateDocument_writer in H1. rewrite HL in H1.
    destruct (write_step doc a1 (byteLength oldBytes) n HS)
      as [r [d [E1 [E2 E3]]]].
    rewrite H1 in E1. injection E1 as <- <-.
    unfold new_UpdatePdfManager. rewrite HL. simpl fst. simpl snd.
    unfold annotateDocument_writer. simpl onLoadedStream.
    destruct (write_step _ a2 (byteLength (oldBytes ++ toUint8Array w1)%list)
                         (n + 1) HU) as [r2 [doc2 [F1 [F2 F3]]]].
    exists r2, doc2. split; [assumption|].
    split; [rewrite F2; f_equal; lia|].
    split; [now apply E3|]. intros w2 Hw.
    destruct (F3 w2 Hw) as [G1 G2]. split; [assumption|].
    now rewrite G2, byteLength_app.
  - intros requests. revert doc n HS.
    induction requests as [|[a len] rest IH]; intros doc n HS.
    + exists [], doc. simpl. repeat split.
      * rewrite HS. f_equal. lia.
      * intros [|i] w H; discriminate.
    + destruct (write_step doc a len n HS) as [r [doc1 [E1 [E2 E3]]]].
      destruct (IH doc1 (n + 1) E2) as [rs [doc' [F1 [F2 [F3 F4]]]]].
      exists (r :: rs), doc'. simpl write_all. rewrite E1, F1.
      split; [reflexivity|]. split; [simpl; now rewrite F2|].
      split.
      * rewrite F3. f_equal. simpl List.length. lia.
      * intros [|i] w H; simpl in H.
        -- injection H as ->. rewrite Z.add_0_r. now apply E3.
        -- rewrite (F4 i w H). do 2 f_equal. lia.
Qed.

Lemma Size_allocates_object_numbers_witness :
  (exists r doc1,
      writeAnnotation_writer sampleDocument sampleAnnotation 2000
      = Some (r, doc1)
      /\ get_Size (trailer doc1) = Some (10 + 1)
      /\ forall w, r = Fulfilled w -> minted w = Some (mkRef 10 0))
  /\ (exists w1 doc1,
        annotateDocument_writer (LocalPdfManager sampleBytes)
                                sampleDocument sampleAnnotation
        = Some (Fulfilled w1, doc1)
        /\ exists r2 doc2,
             annotateDocument_writer
               (fst (new_UpdatePdfManager (fun d _ => d)
                       (LocalPdfManager sampleBytes) [Byte.x25; Byte.x25] doc1))
               (snd (new_UpdatePdfManager (fun d _ => d)
                       (LocalPdfManager sampleBytes) [Byte.x25; Byte.x25] doc1))
               offsetAnnotation
             = Some (r2, doc2)
             /\ get_Size (trailer doc2) = Some (10 + 2)
             /\ minted w1 = Some (mkRef 10 0)
             /\ forall w2, r2 = Fulfilled w2 ->
                  minted w2 = Some (mkRef (10 + 1) 0)
                  /\ w_byteLength w2
                     = Some (byteLength sampleBytes
                             + byteLength [Byte.x25; Byte.x25]))
  /\ (exists rs doc',
        write_all sampleDocument
                  [ (sampleAnnotation, 2000); (missingPageAnnotation, 2400);
                    (offsetAnnotation, 2400) ]
        = Some (rs, doc')
        /\ List.length rs = 3%nat
        /\ get_Size (trailer doc') = Some (10 + 3)
        /\ forall i w, nth_error rs i = Some (Fulfilled w) ->
             minted w = Some (mkRef (10 + Z.of_nat i) 0)).
Proof.
  pose proof (Size_allocates_object_numbers sampleDocument 10 eq_refl)
    as [H1 [_ [H3 H4]]].
  split; [|split].
  - exact (H1 sampleAnnotation 2000).
  - eexists _, _. split.
    + apply (writeAnnotation_writer_fulfilled
               sampleDocument sampleAnnotation 2000 10 letterPage);
        reflexivity.
    + apply (H3 (fun _ => [Byte.x25; Byte.x25]) (fun d _ => d)
                (LocalPdfManager sampleBytes) sampleBytes
                sampleAnnotation offsetAnnotation).
      * reflexivity.
      * apply (writeAnnotation_writer_fulfilled
                 sampleDocument sampleAnnotation 2000 10 letterPage);
          reflexivity.
      * reflexivity.
  - exact (H4 [ (sampleAnnotation, 2000); (missingPageAnnotation, 2400);
                (offsetAnnotation, 2400) ]).
Defined.

(* ================================================================== *)
(** * The writer reads its inputs and nothing else *)
(* ================================================================== *)

(** C8.  Two documents with the same trailer and the same cross-reference
    offset, in which the requested page resolves to the same page (or in
    both to none), settle a write of the same request at the same byte
    length with the same bytes (or the same failure), whatever else the
    documents hold; and so do two managers whose loaded streams have the
    same length. *)
Theorem writeAnnotation_depends_on_its_inputs_only :
  forall (toUint8Array : PDFDataWriter -> Bytes) (doc1 doc2 : PDFDocument)
         (a : AnnotationProperties) (len : Z),
    trailer doc1 = trailer doc2 ->
    startXRef doc1 = startXRef doc2 ->
    getPage doc1 (page a) = getPage doc2 (page a) ->
    option_map fst (writeAnnotation toUint8Array doc1 a len)
    = option_map fst (writeAnnotation toUint8Array doc2 a len)
    /\ (forall m1 m2 b1 b2,
          onLoadedStream m1 = Fulfilled b1 ->
          onLoadedStream m2 = Fulfilled b2 ->
          byteLength b1 = byteLength b2 ->
          option_map fst (annotateDocument toUint8Array m1 doc1 a)
          = option_map fst (annotateDocument toUint8Array m2 doc2 a)).
Proof.
  intros toUint8Array doc1 doc2 a len Ht Hs Hp.
  assert (core : forall len',
             option_map fst (writeAnnotation toUint8Array doc1 a len')
             = option_map fst (writeAnnotation toUint8Array doc2 a len')).
  { intros len'. rewrite !writeAnnotation_renders.
    destruct (get_Size (trailer doc1)) as [n|] eqn:HS1.
    - assert (HS2 : get_Size (trailer doc2) = Some n) by now rewrite <- Ht.
      destruct (getPage doc1 (page a)) as [p|] eqn:HP1.
      + symmetry in Hp.
        rewrite (writeAnnotation_writer_fulfilled doc1 a len' n p HS1 HP1).
        rewrite (writeAnnotation_writer_fulfilled doc2 a len' n p HS2 Hp).
        simpl. now rewrite Ht, Hs.
      + symmetry in Hp.
        rewrite (writeAnnotation_writer_rejected doc1 a len' n HS1 HP1).
        rewrite (writeAnnotation_writer_rejected doc2 a len' n HS2 Hp).
        reflexivity.
    - assert (HS2 : get_Size (trailer doc2) = None) by now rewrite <- Ht.
      unfold writeAnnotation_writer. now rewrite HS1, HS2. }
  split; [apply core|].
  intros m1 m2 b1 b2 H1 H2 Hb. unfold annotateDocument.
  rewrite H1, H2, Hb. apply core.
Qed.

Lemma writeAnnotation_depends_on_its_inputs_only_witness :
  option_map fst
    (writeAnnotation (fun w => map (fun _ => Byte.x25) (w_calls w))
                     sampleDocument sampleAnnotation 2000)
  = option_map fst
      (writeAnnotation (fun w => map (fun _ => Byte.x25) (w_calls w))
                       otherDocument sampleAnnotation 2000)
  /\ (forall m1 m2 b1 b2,
        onLoadedStream m1 = Fulfilled b1 ->
        onLoadedStream m2 = Fulfilled b2 ->
        byteLength b1 = byteLength b2 ->
        option_map fst
          (annotateDocument (fun w => map (fun _ => Byte.x25) (w_calls w))
                            m1 sampleDocument sampleAnnotation)
        = option_map fst
            (annotateDocument (fun w => map (fun _ => Byte.x25) (w_calls w))
                              m2 otherDocument sampleAnnotation)).
Proof.
  apply (writeAnnotation_depends_on_its_inputs_only
           (fun w => map (fun _ => Byte.x25) (w_calls w))
           sampleDocument otherDocument sampleAnnotation 2000);
    reflexivity.
Defined.

(* ================================================================== *)
(** * The [ensure] protocol *)
(* ================================================================== *)

Section EnsureFacts.

Variables World Val Err : Type.
Variable operation : World -> Completion Err Val * World.
Variable requestRange : Z -> Z -> World -> option (Exception Err) * World.

Local Abbreviation ensure :=
  (NetworkPdfManager_ensure operation requestRange).
Local Abbreviation protocol := (ensure_protocol operation requestRange).

(** More fuel does not change what a run amounts to. *)
Lemma NetworkPdfManager_ensure_fuel (fuel : nat) :
  forall (w : World) (r : Ensured World Val Err),
    ensure fuel w = Some r ->
    forall fuel', (fuel <= fuel')%nat -> ensure fuel' w = Some r.
Proof.
  induction fuel as [|fuel IH]; intros w r H fuel' Hle; [discriminate|].
  destruct fuel' as [|fuel']; [lia|]. simpl in *.
  destruct (operation w) as [[v|[b e|x]] w']; try assumption.
  destruct (requestRange b e w') as [[ex|] w'']; [assumption|].
  destruct (ensure fuel w'') as [r0|] eqn:E; [|discriminate].
  rewrite (IH w'' r0 E fuel') by lia. assumption.
Qed.

(** A run that settles requested no more ranges than it had fuel: every
    request follows an evaluation of the operation. *)
Lemma NetworkPdfManager_ensure_requests (fuel : nat) :
  forall (w : World) (r : Ensured World Val Err),
    ensure fuel w = Some r -> (List.length (requested r) <= fuel)%nat.
Proof.
  induction fuel as [|fuel IH]; intros w r H; [discriminate|].
  simpl in H.
  destruct (operation w) as [[v|[b e|x]] w'].
  - injection H as <-. simpl. lia.
  - destruct (requestRange b e w') as [[ex|] w''].
    + injection H as <-. simpl. lia.
    + destruct (ensure fuel w'') as [r0|] eqn:E; [|discriminate].
      injection H as <-. simpl. apply IH in E. lia.
  - injection H as <-. simpl. lia.
Qed.

(** The source and the protocol of section 4.1 settle the same way. *)
Lemma NetworkPdfManager_ensure_protocol (w : World)
    (r : Ensured World Val Err) :
  protocol w r <-> exists fuel, ensure fuel w = Some r.
Proof.
  split.
  - induction 1 as [w v w' Hop | w x w' Hop | w b e w' ex w'' Hop Hreq
                   | w b e w' w'' r Hop Hreq _ [fuel IH]].
    + exists 1%nat. simpl. now rewrite Hop.
    + exists 1%nat. simpl. now rewrite Hop.
    + exists 1%nat. simpl. now rewrite Hop, Hreq.
    + exists (S fuel). simpl. now rewrite Hop, Hreq, IH.
  - intros [fuel H]. revert w r H.
    induction fuel as [|fuel IH]; intros w r H; [discriminate|].
    simpl in H.
    destruct (operation w) as [[v|[b e|x]] w'] eqn:Hop.
    + injection H as <-. now apply EP_value.
    + destruct (requestRange b e w') as [[ex|] w''] eqn:Hreq.
      * injection H as <-. now apply EP_fetch_failed with (w' := w').
      * destruct (ensure fuel w'') as [r0|] eqn:E; [|discriminate].
        injection H as <-.
        apply EP_retry with (w' := w') (w'' := w''); auto.
    + injection H as <-. now apply EP_other.
Qed.

(** C3.  When the evaluation throws a [MissingDataException] for
    [[b, e)], [NetworkPdfManager.ensure] requests exactly that range and,
    once the request is fulfilled, is [ensure] again on the same operation
    in the world the request left, with [(b, e)] first among the ranges
    requested; a rejected request rejects the promise.  When the evaluation
    throws anything else, the promise is rejected with that very exception,
    in the world the evaluation left, and no range has been requested. *)
Theorem NetworkPdfManager_ensure_fetches_and_retries :
  (forall fuel w b e w' w'',
      operation w = (Throw (MissingDataException b e), w') ->
      requestRange b e w' = (None, w'') ->
      ensure (S fuel) w = option_map (also_requested (b, e)) (ensure fuel w''))
  /\ (forall fuel w b e w' ex w'',
        operation w = (Throw (MissingDataException b e), w') ->
        requestRange b e w' = (Some ex, w'') ->
        ensure (S fuel) w = Some (mkEnsured (Rejected ex) w'' [(b, e)]))
  /\ (forall fuel w x w',
        operation w = (Throw (OtherException x), w') ->
        ensure (S fuel) w
        = Some (mkEnsured (Rejected (OtherException x)) w' []))
  /\ (forall fuel w v w',
        operation w = (Normal v, w') ->
        ensure (S fuel) w = Some (mkEnsured (Fulfilled v) w' []))
  /\ (forall fuel w b e w' r,
        operation w = (Throw (MissingDataException b e), w') ->
        ensure fuel w = Some r ->
        exists rest, requested r = (b, e) :: rest)
  /\ (forall w r, protocol w r <-> exists fuel, ensure fuel w = Some r).
Proof.
  repeat match goal with |- _ /\ _ => split end.
  - intros fuel w b e w' w'' Hop Hreq. simpl. now rewrite Hop, Hreq.
  - intros fuel w b e w' ex w'' Hop Hreq. simpl. now rewrite Hop, Hreq.
  - intros fuel w x w' Hop. simpl. now rewrite Hop.
  - intros fuel w v w' Hop. simpl. now rewrite Hop.
  - intros [|fuel] w b e w' r Hop H; [discriminate|].
    simpl in H. rewrite Hop in H.
    destruct (requestRange b e w') as [[ex|] w''].
    + injection H as <-. now exists [].
    + destruct (ensure fuel w'') as [r0|]; [|discriminate].
      injection H as <-. now exists (requested r0).
  - apply NetworkPdfManager_ensure_protocol.
Qed.

(** C10.  [LocalPdfManager.ensure] and [UpdatePdfManager.ensure] evaluate
    the operation once and request nothing; a [MissingDataException] the
    evaluation throws rejects their promise as it is.  On the same
    evaluation [NetworkPdfManager.ensure] requests the range. *)
Theorem resident_managers_do_not_fetch :
  (forall w,
      requested (LocalPdfManager_ensure operation w) = []
      /\ requested (UpdatePdfManager_ensure operation w) = []
      /\ world (LocalPdfManager_ensure operation w) = snd (operation w)
      /\ world (UpdatePdfManager_ensure operation w) = snd (operation w))
  /\ (forall w b e w',
        operation w = (Throw (MissingDataException b e), w') ->
        LocalPdfManager_ensure operation w
        = mkEnsured (Rejected (MissingDataException b e)) w' []
        /\ UpdatePdfManager_ensure operation w
           = mkEnsured (Rejected (MissingDataException b e)) w' []
        /\ forall fuel r,
             ensure (S fuel) w = Some r ->
             exists rest, requested r = (b, e) :: rest).
Proof.
  split.
  - intros w. unfold LocalPdfManager_ensure, UpdatePdfManager_ensure.
    destruct (operation w) as [[v|ex] w']; repeat split.
  - intros w b e w' Hop.
    unfold LocalPdfManager_ensure, UpdatePdfManager_ensure. rewrite Hop.
    repeat split. intros fuel r H. simpl in H. rewrite Hop in H.
    destruct (requestRange b e w') as [[ex|] w''].
    + injection H as <-. now exists [].
    + destruct (ensure fuel w'') as [r0|]; [|discriminate].
      injection H as <-. now exists (requested r0).
Qed.

End EnsureFacts.

Example sample_ensure_run :
  NetworkPdfManager_ensure sample_operation sample_requestRange 3 []
  = Some (mkEnsured (Fulfilled 42) [(10, 20); (0, 10)] [(0, 10); (10, 20)]).
Proof. reflexivity. Qed.

Lemma NetworkPdfManager_ensure_fetches_and_retries_witness :
  NetworkPdfManager_ensure sample_operation sample_requestRange 3 []
  = option_map (also_requested (0, 10))
      (NetworkPdfManager_ensure sample_operation sample_requestRange 2
                                [(0, 10)])
  /\ NetworkPdfManager_ensure failing_operation sample_requestRange 1 []
     = Some (mkEnsured (Rejected (OtherException "bad XRef entry")) [] [])
  /\ ensure_protocol sample_operation sample_requestRange []
       (mkEnsured (Fulfilled 42) [(10, 20); (0, 10)] [(0, 10); (10, 20)]).
Proof.
  split; [|split].
  - apply (proj1 (NetworkPdfManager_ensure_fetches_and_retries
                    (list (Z * Z)) Z string
                    sample_operation sample_requestRange)
             2%nat [] 0 10 [] [(0, 10)]); reflexivity.
  - apply (proj1 (proj2 (proj2
             (NetworkPdfManager_ensure_fetches_and_retries
                (list (Z * Z)) Z string
                failing_operation sample_requestRange)))
             0%nat [] "bad XRef entry" []); reflexivity.
  - apply (proj2 (proj2 (proj2 (proj2 (proj2
             (NetworkPdfManager_ensure_fetches_and_retries
                (list (Z * Z)) Z string
                sample_operation sample_requestRange)))))).
    exists 3%nat. reflexivity.
Defined.

Lemma resident_managers_do_not_fetch_witness :
  LocalPdfManager_ensure sample_operation []
  = mkEnsured (Rejected (MissingDataException 0 10)) [] []
  /\ UpdatePdfManager_ensure sample_operation []
     = mkEnsured (Rejected (MissingDataException 0 10)) [] []
  /\ forall fuel r,
       NetworkPdfManager_ensure sample_operation sample_requestRange
                                (S fuel) []
       = Some r ->
       exists rest, requested r = (0, 10) :: rest.
Proof.
  apply (proj2 (resident_managers_do_not_fetch
                  (list (Z * Z)) Z string
                  sample_operation sample_requestRange) [] 0 10 []).
  reflexivity.
Defined.

(* ================================================================== *)
(** * Instances on the sample document *)
(* ================================================================== *)

Lemma inline_write_ignores_author_witness :
  exists w doc',
    editing_annotateDocument (LocalPdfManager sampleBytes)
                             sampleDocument sampleAnnotation
    = Some (Fulfilled w, doc')
    /\ exists p newPageDict,
         getPage sampleDocument (page sampleAnnotation) = Some p
         /\ appended_dicts (w_calls w)
            = [ [ ("Type", VName "Annot");
                  ("Subtype", VName "Text");
                  ("Contents", VStr (contents sampleAnnotation));
                  ("Rect",
                   rectOf (parseInt (x (coords sampleAnnotation)
                                     * view_at (view p) 2))
                          (parseInt (y (coords sampleAnnotation)
                                     * view_at (view p) 3))) ];
                newPageDict ].
Proof.
  eexists _, _. split; [reflexivity|].
  eapply (inline_write_ignores_author
            (mkWriter (Some sampleBytes) None [])
            sampleDocument sampleAnnotation); reflexivity.
Defined.

Lemma rejected_write_advances_Size_witness :
  exists doc',
    writeAnnotation_writer sampleDocument missingPageAnnotation 2000
    = Some (Rejected (PageResolutionFailed (page missingPageAnnotation)), doc')
    /\ get_Size (trailer doc') = Some (10 + 1)
    /\ pages doc' = pages sampleDocument
    /\ startXRef doc' = startXRef sampleDocument.
Proof.
  apply (rejected_write_advances_Size
           sampleDocument missingPageAnnotation 2000 10); reflexivity.
Defined.

Lemma NetworkPdfManager_ensure_fuel_witness :
  NetworkPdfManager_ensure sample_operation sample_requestRange 7 []
  = Some (mkEnsured (Fulfilled 42) [(10, 20); (0, 10)] [(0, 10); (10, 20)]).
Proof.
  apply (NetworkPdfManager_ensure_fuel
           (list (Z * Z)) Z string sample_operation sample_requestRange
           3%nat [] _ eq_refl 7%nat).
  repeat constructor.
Defined.

(* ================================================================== *)
(** * The annotation editor *)
(* ================================================================== *)

Lemma remove_only (el : Editor.Element) : Editor.remove el [el] = [].
Proof. unfold Editor.remove. simpl. now rewrite Nat.eqb_refl. Qed.

Lemma consistent_escapeEditing (submit : bool) (s : Editor.State) :
  Editor.consistent s -> Editor.consistent (Editor.escapeEditing submit s).
Proof.
  intros H. unfold Editor.escapeEditing.
  destruct (Editor.editor s) as [ed|] eqn:E; [|assumption].
  destruct (Editor.input s) as [text|] eqn:I; [|assumption].
  left. simpl. repeat split.
  destruct H as [[H _]|[el [t [c [p [He [_ [_ [_ Hb]]]]]]]]]; [congruence|].
  rewrite Hb. replace ed with el by congruence. apply remove_only.
Qed.

Lemma consistent_addEditBox (e : Editor.PageClick) (s : Editor.State) :
  Editor.consistent s -> Editor.consistent (Editor.addEditBox e s).
Proof.
  intros H. right. unfold Editor.addEditBox. simpl.
  eexists _, _, _, _. repeat split.
  destruct H as [[He [_ [_ [_ Hb]]]]|[el [t [c [p [He [_ [_ [_ Hb]]]]]]]]];
    rewrite He, Hb; [reflexivity|].
  now rewrite remove_only.
Qed.

Lemma consistent_handleKeyPress (keyCode : Z) (s : Editor.State) :
  Editor.consistent s -> Editor.consistent (Editor.handleKeyPress keyCode s).
Proof.
  intros H. unfold Editor.handleKeyPress.
  destruct ((keyCode =? Editor.ENTER_KEY) && Editor.has_editor s);
    [now apply consistent_escapeEditing|].
  destruct ((keyCode =? Editor.ESCAPE_KEY) && Editor.has_editor s);
    [now apply consistent_escapeEditing|].
  destruct (keyCode =? Editor.ESCAPE_KEY); exact H.
Qed.

Lemma iter_invariant {A : Type} (P : A -> Prop) (f : A -> A) :
  (forall a, P a -> P (f a)) -> forall n a, P a -> P (Nat.iter n f a).
Proof. intros Hf n a Ha. induction n; simpl; auto. Qed.

Lemma consistent_step (s : Editor.State) (ev : Editor.UIEvent) :
  Editor.consistent s -> Editor.consistent (Editor.step s ev).
Proof.
  intros H. destruct ev as [|e|keyCode|text]; simpl.
  - unfold Editor.toggle. destruct (Editor.active s); exact H.
  - unfold Editor.handlePageClick.
    destruct (negb (Editor.active s)); [exact H|].
    destruct (Editor.editor s);
      [now apply consistent_escapeEditing | now apply consistent_addEditBox].
  - unfold Editor.keyup.
    apply iter_invariant; [apply consistent_handleKeyPress | exact H].
  - unfold Editor.typed. destruct (Editor.input s) as [t|] eqn:I; [|exact H].
    destruct H as [[_ [Hi _]]|[el [t' [c [p [He [_ [Hc [Hp Hb]]]]]]]]];
      [congruence|].
    right. exists el, text, c, p. simpl. repeat split; assumption.
Qed.

(** From the constructor on, whatever comes in, the editor's box is whole
    or absent: [editor], [input], [coordinates] and [page] are all set or
    all [null], and the body holds exactly the box that is set. *)
Theorem editor_box_is_whole_or_absent :
  forall (buttonToggled : bool) (evs : list Editor.UIEvent),
    Editor.consistent (Editor.run (Editor.constructor buttonToggled) evs).
Proof.
  intros b evs. unfold Editor.run.
  assert (H : Editor.consistent (Editor.constructor b))
    by (left; repeat split).
  revert H. generalize (Editor.constructor b).
  induction evs as [|ev evs IH]; intros s H; simpl; [exact H|].
  apply IH, consistent_step, H.
Qed.

Lemma keyup_listeners_handleKeyPress (keyCode : Z) (s : Editor.State) :
  Editor.keyup_listeners (Editor.handleKeyPress keyCode s)
  = Editor.keyup_listeners s.
Proof.
  unfold Editor.handleKeyPress, Editor.escapeEditing.
  destruct ((keyCode =? Editor.ENTER_KEY) && Editor.has_editor s);
    [destruct (Editor.editor s); [destruct (Editor.input s)|]; reflexivity|].
  destruct ((keyCode =? Editor.ESCAPE_KEY) && Editor.has_editor s);
    [destruct (Editor.editor s); [destruct (Editor.input s)|]; reflexivity|].
  destruct (keyCode =? Editor.ESCAPE_KEY); reflexivity.
Qed.

Lemma keyup_listeners_step (s : Editor.State) (ev : Editor.UIEvent) :
  (Editor.keyup_listeners s <= Editor.keyup_listeners (Editor.step s ev))%nat.
Proof.
  destruct ev as [|e|keyCode|text]; simpl.
  - unfold Editor.toggle. destruct (Editor.active s); simpl; lia.
  - unfold Editor.handlePageClick, Editor.escapeEditing.
    destruct (negb (Editor.active s)); [lia|].
    destruct (Editor.editor s); [destruct (Editor.input s)|]; simpl; lia.
  - unfold Editor.keyup.
    enough (H : forall n,
               Editor.keyup_listeners
                 (Nat.iter n (Editor.handleKeyPress keyCode) s)
               = Editor.keyup_listeners s) by (rewrite H; lia).
    induction n as [|n IH]; simpl; [reflexivity|].
    now rewrite keyup_listeners_handleKeyPress.
  - unfold Editor.typed. destruct (Editor.input s); simpl; lia.
Qed.

Lemma run_app (s : Editor.State) (evs evs' : list Editor.UIEvent) :
  Editor.run s (evs ++ evs') = Editor.run (Editor.run s evs) evs'.
Proof. apply fold_left_app. Qed.

Lemma two_button_clicks (s : Editor.State) :
  Editor.active s = false ->
  Editor.keyup_listeners
    (Editor.run s [Editor.ButtonClick; Editor.ButtonClick])
  = S (Editor.keyup_listeners s)
  /\ Editor.active (Editor.run s [Editor.ButtonClick; Editor.ButtonClick])
     = false.
Proof.
  intros H. unfold Editor.run. simpl. unfold Editor.toggle. rewrite H.
  simpl. split; reflexivity.
Qed.

Lemma one_button_click (s : Editor.State) :
  Editor.active s = false ->
  Editor.keyup_listeners (Editor.run s [Editor.ButtonClick])
  = S (Editor.keyup_listeners s)
  /\ Editor.active (Editor.run s [Editor.ButtonClick]) = true.
Proof.
  intros H. unfold Editor.run. simpl. unfold Editor.toggle. rewrite H.
  simpl. split; reflexivity.
Qed.

(** No sequence of events ever lowers the number of [keyup] listeners the
    editor has on the document, and every switching-on adds one: after the
    button has been clicked [2 n] times the tool is off with [n] listeners
    left behind, and the next click makes them [n + 1]. *)
Theorem keyup_listeners_are_never_removed :
  (forall (s : Editor.State) (evs : list Editor.UIEvent),
      (Editor.keyup_listeners s
       <= Editor.keyup_listeners (Editor.run s evs))%nat)
  /\ (forall (buttonToggled : bool) (n : nat),
        Editor.keyup_listeners
          (Editor.run (Editor.constructor buttonToggled)
                      (repeat Editor.ButtonClick (2 * n))) = n
        /\ Editor.active
             (Editor.run (Editor.constructor buttonToggled)
                         (repeat Editor.ButtonClick (2 * n))) = false
        /\ Editor.keyup_listeners
             (Editor.run (Editor.constructor buttonToggled)
                         (repeat Editor.ButtonClick (2 * n + 1))) = S n
        /\ Editor.active
             (Editor.run (Editor.constructor buttonToggled)
                         (repeat Editor.ButtonClick (2 * n + 1))) = true).
Proof.
  split.
  - intros s evs. revert s.
    induction evs as [|ev evs IH]; intros s; simpl; [lia|].
    etransitivity; [apply keyup_listeners_step | apply IH].
  - intros b n.
    assert (even : Editor.keyup_listeners
                     (Editor.run (Editor.constructor b)
                                 (repeat Editor.ButtonClick (2 * n))) = n
                   /\ Editor.active
                        (Editor.run (Editor.constructor b)
                                    (repeat Editor.ButtonClick (2 * n)))
                      = false).
    { induction n as [|n [IHl IHa]]; [split; reflexivity|].
      replace (2 * S n)%nat with (2 * n + 2)%nat by lia.
      rewrite repeat_app, run_app.
      change (repeat Editor.ButtonClick 2)
        with [Editor.ButtonClick; Editor.ButtonClick].
      destruct (two_button_clicks _ IHa) as [Hl Ha].
      rewrite Hl, Ha, IHl. split; reflexivity. }
    destruct even as [Hl Ha]. split; [exact Hl|]. split; [exact Ha|].
    rewrite repeat_app, run_app.
    change (repeat Editor.ButtonClick 1) with [Editor.ButtonClick].
    destruct (one_button_click _ Ha) as [Hl1 Ha1].
    rewrite Hl1, Ha1, Hl. split; reflexivity.
Qed.

Lemma handleKeyPress_escape_closed (s : Editor.State) :
  Editor.editor s = None ->
  Editor.handleKeyPress Editor.ESCAPE_KEY s = Editor.off s.
Proof.
  intros H. unfold Editor.handleKeyPress, Editor.has_editor. now rewrite H.
Qed.

Lemma handleKeyPress_enter_closed (s : Editor.State) :
  Editor.editor s = None ->
  Editor.handleKeyPress Editor.ENTER_KEY s = s.
Proof.
  intros H. unfold Editor.handleKeyPress, Editor.has_editor. now rewrite H.
Qed.

(** With a box open, one [Escape] closes it and dispatches nothing.  If
    the editor has a single listener the tool stays on; if earlier
    switchings left more, the listeners that run after the first find no
    box and switch the tool off. *)
Theorem escape_with_stale_listeners_switches_off :
  forall (s : Editor.State) (el : Editor.Element) (text : string),
    Editor.editor s = Some el ->
    Editor.input s = Some text ->
    Editor.active s = true ->
    (1 <= Editor.keyup_listeners s)%nat ->
    Editor.editor (Editor.keyup Editor.ESCAPE_KEY s) = None
    /\ Editor.dispatched (Editor.keyup Editor.ESCAPE_KEY s)
       = Editor.dispatched s
    /\ (Editor.keyup_listeners s = 1%nat ->
        Editor.active (Editor.keyup Editor.ESCAPE_KEY s) = true)
    /\ ((2 <= Editor.keyup_listeners s)%nat ->
        Editor.active (Editor.keyup Editor.ESCAPE_KEY s) = false).
Proof.
  intros s el text He Hi Ha Hn. unfold Editor.keyup.
  destruct (Editor.keyup_listeners s) as [|m]; [lia|]. clear Hn.
  rewrite Nat.iter_succ_r.
  set (c := Editor.handleKeyPress Editor.ESCAPE_KEY s).
  assert (Hc : c = Editor.escapeEditing false s).
  { unfold c, Editor.handleKeyPress, Editor.has_editor. now rewrite He. }
  assert (Hce : Editor.editor c = None
                /\ Editor.dispatched c = Editor.dispatched s
                /\ Editor.active c = true).
  { rewrite Hc. unfold Editor.escapeEditing. rewrite He, Hi. simpl.
    repeat split. exact Ha. }
  destruct Hce as [Hce [Hcd Hca]].
  assert (Hiter : forall k,
             Nat.iter (S k) (Editor.handleKeyPress Editor.ESCAPE_KEY) c
             = Editor.off c).
  { induction k as [|k IH].
    - simpl. now apply handleKeyPress_escape_closed.
    - change (Nat.iter (S (S k)) (Editor.handleKeyPress Editor.ESCAPE_KEY) c)
        with (Editor.handleKeyPress Editor.ESCAPE_KEY
                (Nat.iter (S k) (Editor.handleKeyPress Editor.ESCAPE_KEY) c)).
      rewrite IH. rewrite handleKeyPress_escape_closed by exact Hce.
      reflexivity. }
  destruct m as [|m].
  - simpl. split; [exact Hce|]. split; [exact Hcd|].
    split; [intros _; exact Hca | intros H; lia].
  - rewrite Hiter. simpl. split; [exact Hce|]. split; [exact Hcd|].
    split; [intros H; lia | reflexivity].
Qed.

(** With a box open, one [Enter] dispatches exactly one [createannotation],
    carrying the textarea's value and the page and coordinates of the box,
    and closes the box, however many listeners run and whether the tool is
    on or off. *)
Theorem enter_submits_the_box_once :
  forall (s : Editor.State) (el : Editor.Element) (text : string),
    Editor.editor s = Some el ->
    Editor.input s = Some text ->
    (1 <= Editor.keyup_listeners s)%nat ->
    Editor.dispatched (Editor.keyup Editor.ENTER_KEY s)
    = (Editor.dispatched s
       ++ [Editor.mkCreateAnnotation text (Editor.this_page s)
                                     (Editor.coordinates s)])%list
    /\ Editor.editor (Editor.keyup Editor.ENTER_KEY s) = None
    /\ Editor.input (Editor.keyup Editor.ENTER_KEY s) = None
    /\ Editor.active (Editor.keyup Editor.ENTER_KEY s) = Editor.active s.
Proof.
  intros s el text He Hi Hn. unfold Editor.keyup.
  destruct (Editor.keyup_listeners s) as [|m]; [lia|]. clear Hn.
  rewrite Nat.iter_succ_r.
  set (c := Editor.handleKeyPress Editor.ENTER_KEY s).
  assert (Hc : c = Editor.escapeEditing true s).
  { unfold c, Editor.handleKeyPress, Editor.has_editor. now rewrite He. }
  assert (Hce : Editor.editor c = None).
  { rewrite Hc. unfold Editor.escapeEditing. now rewrite He, Hi. }
  assert (Hiter : forall k,
             Nat.iter k (Editor.handleKeyPress Editor.ENTER_KEY) c = c).
  { induction k as [|k IH]; [reflexivity|]. simpl. rewrite IH.
    now apply handleKeyPress_enter_closed. }
  rewrite Hiter, Hc. unfold Editor.escapeEditing. rewrite He, Hi. simpl.
  repeat split.
Qed.

Lemma from_page_click_more (clicks more : list Editor.PageClick)
    (p : option Z) (c : option (Num * Num)) :
  from_page_click clicks p c -> from_page_click (clicks ++ more) p c.
Proof.
  intros [e [Hin H]]. exists e. split; [apply in_or_app; now left | exact H].
Qed.

Lemma dispatch_history_more (s : Editor.State)
    (clicks more : list Editor.PageClick) :
  dispatch_history s clicks -> dispatch_history s (clicks ++ more).
Proof.
  intros [Hd [He Hl]]. split; [|split].
  - intros ca Hin. now apply from_page_click_more, Hd.
  - intros H. now apply from_page_click_more, He.
  - rewrite length_app. lia.
Qed.

Lemma dispatch_history_escapeEditing (submit : bool) (s : Editor.State)
    (clicks : list Editor.PageClick) :
  dispatch_history s clicks ->
  dispatch_history (Editor.escapeEditing submit s) clicks.
Proof.
  intros H. unfold Editor.escapeEditing.
  destruct (Editor.editor s) as [ed|] eqn:E; [|exact H].
  destruct (Editor.input s) as [text|] eqn:I; [|exact H].
  destruct H as [Hd [He Hl]].
  unfold Editor.has_editor in He, Hl. rewrite E in He, Hl.
  unfold dispatch_history, Editor.has_editor. simpl.
  split; [|split; [discriminate|]].
  - intros ca Hin. destruct submit; [|now apply Hd].
    apply in_app_or in Hin as [Hin|[<-|[]]]; [now apply Hd|].
    simpl. now apply He.
  - destruct submit; [rewrite length_app; simpl|]; lia.
Qed.

Lemma dispatch_history_handleKeyPress (keyCode : Z) (s : Editor.State)
    (clicks : list Editor.PageClick) :
  dispatch_history s clicks ->
  dispatch_history (Editor.handleKeyPress keyCode s) clicks.
Proof.
  intros H. unfold Editor.handleKeyPress.
  destruct ((keyCode =? Editor.ENTER_KEY) && Editor.has_editor s);
    [now apply dispatch_history_escapeEditing|].
  destruct ((keyCode =? Editor.ESCAPE_KEY) && Editor.has_editor s);
    [now apply dispatch_history_escapeEditing|].
  destruct (keyCode =? Editor.ESCAPE_KEY); exact H.
Qed.

Lemma dispatch_history_step (s : Editor.State) (ev : Editor.UIEvent)
    (clicks : list Editor.PageClick) :
  dispatch_history s clicks ->
  dispatch_history (Editor.step s ev) (clicks ++ Editor.page_clicks [ev]).
Proof.
  intros H. destruct ev as [|e|keyCode|text]; simpl.
  - rewrite app_nil_r. unfold Editor.toggle.
    destruct (Editor.active s); exact H.
  - unfold Editor.handlePageClick.
    destruct (negb (Editor.active s)); [now apply dispatch_history_more|].
    destruct (Editor.editor s) as [ed|] eqn:E.
    + now apply dispatch_history_more, dispatch_history_escapeEditing.
    + destruct H as [Hd [He Hl]].
      unfold Editor.has_editor in Hl. rewrite E in Hl.
      unfold dispatch_history, Editor.has_editor. simpl.
      split; [|split].
      * intros ca Hin. now apply from_page_click_more, Hd.
      * intros _. exists e. split; [apply in_or_app; right; now left|].
        split; reflexivity.
      * rewrite length_app. simpl. lia.
  - rewrite app_nil_r. unfold Editor.keyup.
    apply iter_invariant with (P := fun s => dispatch_history s clicks);
      [intros a; apply dispatch_history_handleKeyPress | exact H].
  - rewrite app_nil_r. unfold Editor.typed.
    destruct (Editor.input s); exact H.
Qed.

Lemma page_clicks_cons (ev : Editor.UIEvent) (evs : list Editor.UIEvent) :
  Editor.page_clicks (ev :: evs)
  = (Editor.page_clicks [ev] ++ Editor.page_clicks evs)%list.
Proof. unfold Editor.page_clicks. simpl. now rewrite app_nil_r. Qed.

(** Whatever comes in, every [createannotation] the editor has dispatched
    carries the page and the offsets of a [pageclick] it received, and it
    has dispatched no more of them than it received page clicks. *)
Theorem dispatched_annotations_come_from_page_clicks :
  forall (buttonToggled : bool) (evs : list Editor.UIEvent),
    (forall ca,
        In ca (Editor.dispatched
                 (Editor.run (Editor.constructor buttonToggled) evs)) ->
        exists e,
          In (Editor.PageClicked e) evs
          /\ Editor.ca_page ca = Some (Editor.page e)
          /\ Editor.ca_coordinates ca
             = Some (Editor.offsetX e, Editor.offsetY e))
    /\ (List.length (Editor.dispatched
                       (Editor.run (Editor.constructor buttonToggled) evs))
        <= List.length (Editor.page_clicks evs))%nat.
Proof.
  intros b evs.
  assert (H : forall evs s clicks,
             dispatch_history s clicks ->
             dispatch_history (Editor.run s evs)
                              (clicks ++ Editor.page_clicks evs)).
  { clear. induction evs as [|ev evs IH]; intros s clicks H.
    - simpl. now rewrite app_nil_r.
    - rewrite page_clicks_cons, app_assoc. simpl.
      apply IH, dispatch_history_step, H. }
  assert (H0 : dispatch_history (Editor.constructor b) []).
  { split; [intros ca []|]. split; [discriminate | simpl; lia]. }
  destruct (H evs _ _ H0) as [Hd [_ Hl]]. simpl in Hd, Hl. split.
  - intros ca Hin. destruct (Hd ca Hin) as [e [He Hpc]].
    exists e. split; [|exact Hpc].
    unfold Editor.page_clicks in He. apply in_flat_map in He as [ev [Hev He]].
    destruct ev; simpl in He; try contradiction.
    destruct He as [<-|[]]. exact Hev.
  - lia.
Qed.

Lemma escape_with_stale_listeners_switches_off_witness :
  Editor.keyup_listeners sampleEditing = 2%nat
  /\ Editor.editor (Editor.keyup Editor.ESCAPE_KEY sampleEditing) = None
  /\ Editor.dispatched (Editor.keyup Editor.ESCAPE_KEY sampleEditing)
     = Editor.dispatched sampleEditing
  /\ (Editor.keyup_listeners sampleEditing = 1%nat ->
      Editor.active (Editor.keyup Editor.ESCAPE_KEY sampleEditing) = true)
  /\ ((2 <= Editor.keyup_listeners sampleEditing)%nat ->
      Editor.active (Editor.keyup Editor.ESCAPE_KEY sampleEditing) = false).
Proof.
  split; [reflexivity|].
  apply (escape_with_stale_listeners_switches_off
           sampleEditing (Editor.mkElement 0 450 400) "note").
  - reflexivity.
  - reflexivity.
  - reflexivity.
  - apply le_S, le_n.
Defined.

Lemma enter_submits_the_box_once_witness :
  Editor.dispatched (Editor.keyup Editor.ENTER_KEY sampleEditing)
  = (Editor.dispatched sampleEditing
     ++ [Editor.mkCreateAnnotation "note" (Editor.this_page sampleEditing)
                                   (Editor.coordinates sampleEditing)])%list
  /\ Editor.editor (Editor.keyup Editor.ENTER_KEY sampleEditing) = None
  /\ Editor.input (Editor.keyup Editor.ENTER_KEY sampleEditing) = None
  /\ Editor.active (Editor.keyup Editor.ENTER_KEY sampleEditing)
     = Editor.active sampleEditing.
Proof.
  apply (enter_submits_the_box_once
           sampleEditing (Editor.mkElement 0 450 400) "note").
  - reflexivity.
  - reflexivity.
  - apply le_S, le_n.
Defined.

(* ================================================================== *)
(** * The click listener of the page view *)
(* ================================================================== *)

Open Scope Q_scope.

Lemma divide_positive (a b : Q) :
  0 < b -> PageView.divide a b = Finite (a / b).
Proof.
  intros Hb. unfold PageView.divide.
  destruct (Qeq_bool b 0) eqn:E; [|reflexivity].
  apply Qeq_bool_eq in E. rewrite E in Hb. now apply Qlt_irrefl in Hb.
Qed.

Lemma divide_by_zero (a b : Q) :
  b == 0 -> PageView.divide a b = NotFinite.
Proof.
  intros Hb. unfold PageView.divide.
  now rewrite (proj2 (Qeq_bool_iff b 0) Hb).
Qed.

(** A click inside a box of positive extent is dispatched with offsets
    that are fractions of the box, measured from its left edge and from its
    bottom edge: the top edge gives [offsetY] 1, the bottom edge 0.  A box
    of zero width or height gives an offset that is not a finite number. *)
Theorem click_offsets_are_fractions :
  (forall (id : Z) (rect : PageView.DOMRect) (ev : PageView.MouseEvent),
      0 < PageView.width rect ->
      0 < PageView.height rect ->
      PageView.left rect <= PageView.clientX ev ->
      PageView.clientX ev <= PageView.left rect + PageView.width rect ->
      PageView.top rect <= PageView.clientY ev ->
      PageView.clientY ev <= PageView.top rect + PageView.height rect ->
      exists qx qy,
        Editor.offsetX (PageView.click id rect ev) = Finite qx
        /\ Editor.offsetY (PageView.click id rect ev) = Finite qy
        /\ Editor.page (PageView.click id rect ev) = id
        /\ 0 <= qx /\ qx <= 1 /\ 0 <= qy /\ qy <= 1
        /\ qx * PageView.width rect
           == PageView.clientX ev - PageView.left rect
        /\ (1 - qy) * PageView.height rect
           == PageView.clientY ev - PageView.top rect)
  /\ (forall id rect ev,
        PageView.width rect == 0 ->
        Editor.offsetX (PageView.click id rect ev) = NotFinite)
  /\ (forall id rect ev,
        PageView.height rect == 0 ->
        Editor.offsetY (PageView.click id rect ev) = NotFinite).
Proof.
  split; [|split].
  - intros id rect ev Hw Hh Hl Hr Ht Hb.
    exists ((PageView.clientX ev - PageView.left rect) / PageView.width rect),
           (1 - (PageView.clientY ev - PageView.top rect)
                / PageView.height rect).
    unfold PageView.click. simpl.
    rewrite (divide_positive _ _ Hw), (divide_positive _ _ Hh). simpl.
    assert (Hx0 : 0 <= (PageView.clientX ev - PageView.left rect)
                       / PageView.width rect)
      by (apply Qle_shift_div_l; [exact Hw | lra]).
    assert (Hx1 : (PageView.clientX ev - PageView.left rect)
                  / PageView.width rect <= 1)
      by (apply Qle_shift_div_r; [exact Hw | lra]).
    assert (Hy0 : 0 <= (PageView.clientY ev - PageView.top rect)
                       / PageView.height rect)
      by (apply Qle_shift_div_l; [exact Hh | lra]).
    assert (Hy1 : (PageView.clientY ev - PageView.top rect)
                  / PageView.height rect <= 1)
      by (apply Qle_shift_div_r; [exact Hh | lra]).
    repeat split; try lra.
    + field. intro H0. rewrite H0 in Hw. now apply Qlt_irrefl in Hw.
    + field. intro H0. rewrite H0 in Hh. now apply Qlt_irrefl in Hh.
  - intros id rect ev Hw. unfold PageView.click. simpl.
    now apply divide_by_zero.
  - intros id rect ev Hh. unfold PageView.click. simpl.
    now rewrite divide_by_zero.
Qed.

Lemma click_offsets_are_fractions_witness :
  exists qx qy,
    Editor.offsetX sampleClick = Finite qx
    /\ Editor.offsetY sampleClick = Finite qy
    /\ Editor.page sampleClick = 1%Z
    /\ 0 <= qx /\ qx <= 1 /\ 0 <= qy /\ qy <= 1
    /\ qx * 600 == 400 - 100
    /\ (1 - qy) * 800 == 450 - 50.
Proof.
  apply (proj1 click_offsets_are_fractions 1%Z
               (PageView.mkDOMRect 100 50 600 800)
               (PageView.mkMouseEvent 400 450 400 450));
    simpl; unfold Qlt, Qle; simpl; lia.
Defined.

Close Scope Q_scope.

(* ================================================================== *)
(** * Where the rectangle lies *)
(* ================================================================== *)

Lemma size_nat_bound (p : positive) :
  Zpos p < 2 ^ Z.of_nat (Pos.size_nat p).
Proof.
  induction p as [p IH|p IH|]; cbn [Pos.size_nat];
    rewrite ?Nat2Z.inj_succ, ?Z.pow_succ_r by lia; lia.
Qed.

Lemma pow10_bound (p : positive) (k : nat) :
  Zpos p < 10 ^ Z.of_nat (Pos.size_nat p + k).
Proof.
  pose proof (size_nat_bound p) as H.
  rewrite Nat2Z.inj_add, Z.pow_add_r by lia.
  assert (2 ^ Z.of_nat (Pos.size_nat p) <= 10 ^ Z.of_nat (Pos.size_nat p))
    by (apply Z.pow_le_mono_l; lia).
  assert (1 <= 10 ^ Z.of_nat k) by (apply Z.pow_le_mono_r with (b := 0); lia).
  nia.
Qed.

Open Scope Q_scope.

Lemma Qltb_true (a b : Q) : a < b -> Qltb a b = true.
Proof.
  intros H. unfold Qltb. destruct (Qle_bool b a) eqn:E; [|reflexivity].
  apply Qle_bool_iff in E. lra.
Qed.

Lemma Qltb_false (a b : Q) : b <= a -> Qltb a b = false.
Proof.
  intros H. unfold Qltb. now rewrite (proj2 (Qle_bool_iff b a) H).
Qed.

Lemma Qleb_true (a b : Q) : a <= b -> Qleb a b = true.
Proof. intros H. now apply Qle_bool_iff. Qed.

Lemma Qleb_false (a b : Q) : b < a -> Qleb a b = false.
Proof.
  intros H. unfold Qleb. destruct (Qle_bool a b) eqn:E; [|reflexivity].
  apply Qle_bool_iff in E. lra.
Qed.

Lemma scale_to_unit_fixed (fuel : nat) (a : Q) :
  1 <= a -> a < 10 -> scale_to_unit fuel a = a.
Proof.
  intros H1 H10. destruct fuel; simpl; [reflexivity|].
  now rewrite (Qltb_false _ _ H1), (Qleb_false _ _ H10).
Qed.

Lemma inject_Z_pow10_succ (n : nat) :
  inject_Z (10 ^ Z.of_nat (S n)) == 10 * inject_Z (10 ^ Z.of_nat n).
Proof.
  rewrite Nat2Z.inj_succ, Z.pow_succ_r by lia. now rewrite inject_Z_mult.
Qed.

Lemma scale_to_unit_up (fuel : nat) :
  forall a : Q,
    0 < a -> a < 1 -> 1 <= a * inject_Z (10 ^ Z.of_nat fuel) ->
    1 <= scale_to_unit fuel a /\ scale_to_unit fuel a < 10.
Proof.
  induction fuel as [|fuel IH]; intros a H0 H1 Hp.
  - simpl in Hp. change (inject_Z 1) with 1 in Hp. lra.
  - simpl scale_to_unit. rewrite (Qltb_true _ _ H1).
    rewrite inject_Z_pow10_succ in Hp.
    destruct (Qlt_le_dec (a * 10) 1) as [Hlt|Hge].
    + apply IH; lra.
    + rewrite scale_to_unit_fixed; lra.
Qed.

Lemma scale_to_unit_down (fuel : nat) :
  forall a : Q,
    10 <= a -> a < 10 * inject_Z (10 ^ Z.of_nat fuel) ->
    1 <= scale_to_unit fuel a /\ scale_to_unit fuel a < 10.
Proof.
  induction fuel as [|fuel IH]; intros a H10 Hp.
  - simpl in Hp. change (inject_Z 1) with 1 in Hp. lra.
  - simpl scale_to_unit.
    assert (H1 : 1 <= a) by lra.
    rewrite (Qltb_false _ _ H1), (Qleb_true _ _ H10).
    rewrite inject_Z_pow10_succ in Hp.
    assert (Hd : a / 10 * 10 == a) by (field).
    destruct (Qlt_le_dec (a / 10) 10) as [Hlt|Hge].
    + rewrite scale_to_unit_fixed; lra.
    + apply IH; lra.
Qed.

Lemma Qtrunc_unit_interval (r : Q) :
  1 <= r -> r < 10 -> (1 <= Qtrunc r <= 9)%Z.
Proof.
  destruct r as [n d]. unfold Qle, Qlt, Qtrunc. simpl. intros H1 H10.
  rewrite Z.quot_div_nonneg by lia. split.
  - apply Z.div_le_lower_bound; lia.
  - enough (n / Zpos d < 10)%Z by lia.
    apply Z.div_lt_upper_bound; lia.
Qed.

Lemma scale_to_unit_reaches_unit (n d : positive) :
  1 <= scale_to_unit (Pos.size_nat n + Pos.size_nat d) (Zpos n # d)
  /\ scale_to_unit (Pos.size_nat n + Pos.size_nat d) (Zpos n # d) < 10.
Proof.
  destruct (Qlt_le_dec (Zpos n # d) 1) as [Hlt|Hge1].
  - apply scale_to_unit_up; [reflexivity | exact Hlt |].
    pose proof (pow10_bound d (Pos.size_nat n)) as Hb.
    rewrite Nat.add_comm in Hb.
    unfold Qle, Qmult, inject_Z. cbn [Qnum Qden]. rewrite Pos.mul_1_r.
    remember (10 ^ Z.of_nat (Pos.size_nat n + Pos.size_nat d))%Z as P.
    nia.
  - destruct (Qlt_le_dec (Zpos n # d) 10) as [Hlt10|Hge10].
    + rewrite scale_to_unit_fixed; [split|idtac|idtac]; assumption.
    + apply scale_to_unit_down; [exact Hge10|].
      pose proof (pow10_bound n (Pos.size_nat d)) as Hb.
      unfold Qlt, Qmult, inject_Z. cbn [Qnum Qden].
      remember (10 ^ Z.of_nat (Pos.size_nat n + Pos.size_nat d))%Z as P.
      change (Zpos (1 * 1)) with 1%Z. nia.
Qed.

(** The leading digit of a positive number is a digit from 1 to 9: the
    scaling has fuel enough to reach [1, 10). *)
Lemma leading_digit_range (a : Q) :
  0 < a -> (1 <= leading_digit a <= 9)%Z.
Proof.
  intros H0. unfold leading_digit.
  destruct a as [n d]. unfold Qlt in H0. simpl in H0.
  destruct n as [|n|n]; try lia. cbn [Qnum Qden Z.to_pos].
  destruct (scale_to_unit_reaches_unit n d) as [H1 H10].
  now apply Qtrunc_unit_interval.
Qed.

Close Scope Q_scope.

Open Scope Q_scope.

Lemma Qtrunc_nonneg (a : Q) : 0 <= a -> (0 <= Qtrunc a)%Z.
Proof.
  destruct a as [n d]. unfold Qle, Qtrunc. simpl. intros H.
  rewrite Z.quot_div_nonneg by lia. apply Z.div_pos; lia.
Qed.

Lemma Qtrunc_monotone (a b : Q) :
  0 <= a -> a <= b -> (Qtrunc a <= Qtrunc b)%Z.
Proof.
  destruct a as [n d], b as [m e]. unfold Qle, Qtrunc. simpl.
  intros H0 H. rewrite !Z.quot_div_nonneg by nia.
  apply Z.div_le_lower_bound; [lia|].
  pose proof (Z.mul_div_le n (Zpos d) eq_refl) as Hq.
  assert (0 <= n / Zpos d)%Z by (apply Z.div_pos; lia).
  nia.
Qed.

(** Outside the plain decimal range [parseInt] of a positive number reads
    one digit, from 1 to 9, and never 0. *)
Lemma parseInt_exponent_digit (v : Q) :
  0 < v -> plain_decimal v = false -> (1 <= parseInt v <= 9)%Z.
Proof.
  intros H0 Hp. unfold plain_decimal in Hp. apply orb_false_iff in Hp.
  destruct Hp as [Hz Hr]. unfold parseInt. rewrite Hz. cbv zeta. rewrite Hr.
  assert (Hs : Z.sgn (Qnum v) = 1%Z).
  { destruct v as [n d]. unfold Qlt in H0. simpl in *. lia. }
  rewrite Hs, Z.mul_1_l. apply leading_digit_range.
  rewrite Qabs_pos; lra.
Qed.

(** [parseInt] of a product that does not exceed the extent, on an extent
    of at least 9 units, lies between 0 and the truncated extent. *)
Lemma parseInt_within (v extent : Q) :
  0 <= v -> v <= extent -> 9 <= extent ->
  (0 <= parseInt v <= Qtrunc extent)%Z.
Proof.
  intros H0 Hv H9.
  assert (H9' : (9 <= Qtrunc extent)%Z)
    by (apply (Qtrunc_monotone 9 extent); lra).
  destruct (plain_decimal v) eqn:Hp.
  - rewrite (parseInt_plain_decimal v Hp). split.
    + now apply Qtrunc_nonneg.
    + now apply Qtrunc_monotone.
  - assert (Hpos : 0 < v).
    { destruct (Qlt_le_dec 0 v) as [H|H]; [exact H|].
      assert (Hz : v == 0) by lra.
      unfold plain_decimal in Hp.
      rewrite (proj2 (Qeq_bool_iff v 0) Hz) in Hp. discriminate. }
    pose proof (parseInt_exponent_digit v Hpos Hp). lia.
Qed.

(** For fractional coordinates in [0, 1] on a page whose view reaches at
    least 9 units right and up, the lower-left corner of the stored
    rectangle lies between the origin and the truncated upper-right corner
    of the view, whatever notation the products print in; the rectangle
    itself reaches 12 units right and 10 up from there, so it can leave
    the view. *)
Theorem Rect_corner_within_view :
  forall (a : AnnotationProperties) (p : Page),
    0 <= x (coords a) -> x (coords a) <= 1 ->
    0 <= y (coords a) -> y (coords a) <= 1 ->
    9 <= x1 (view p) -> 9 <= y1 (view p) ->
    exists px py : Z,
      getRaw (annotationDict a p) "Rect"
      = VArr [VInt px; VInt py; VInt (px + 12); VInt (py + 10)]
      /\ (0 <= px <= Qtrunc (x1 (view p)))%Z
      /\ (0 <= py <= Qtrunc (y1 (view p)))%Z.
Proof.
  intros a p Hx0 Hx1 Hy0 Hy1 HW HH.
  exists (parseInt (x (coords a) * x1 (view p))),
         (parseInt (y (coords a) * y1 (view p))).
  split; [apply annotationDict_Rect|].
  split; apply parseInt_within; try assumption.
  - apply Qmult_le_0_compat; lra.
  - rewrite <- (Qmult_1_l (x1 (view p))) at 2.
    apply Qmult_le_compat_r; lra.
  - apply Qmult_le_0_compat; lra.
  - rewrite <- (Qmult_1_l (y1 (view p))) at 2.
    apply Qmult_le_compat_r; lra.
Qed.

Lemma Rect_corner_within_view_witness :
  exists px py : Z,
    getRaw (annotationDict tinyAnnotation letterPage) "Rect"
    = VArr [VInt px; VInt py; VInt (px + 12); VInt (py + 10)]
    /\ (0 <= px <= Qtrunc (x1 (view letterPage)))%Z
    /\ (0 <= py <= Qtrunc (y1 (view letterPage)))%Z.
Proof.
  apply (Rect_corner_within_view tinyAnnotation letterPage);
    unfold Qle; simpl; lia.
Defined.

Close Scope Q_scope.

(* ================================================================== *)
(** * Writes that follow one another *)
(* ================================================================== *)

Lemma wf_copy_loop (d : Dict) (ks : list string) (acc : Dict) :
  wf_dict acc -> wf_dict (fold_left (copyKey d) ks acc).
Proof.
  revert acc. induction ks as [|k ks IH]; intros acc H; simpl; [exact H|].
  apply IH. unfold copyKey.
  destruct (negb (String.eqb k "Annots")); [now apply wf_dict_set | exact H].
Qed.

Lemma wf_rewritePageDict (d : Dict) (anns : list Ref) :
  wf_dict (rewritePageDict d anns).
Proof.
  unfold rewritePageDict. apply wf_dict_set, wf_copy_loop, wf_dict_empty.
Qed.

Lemma filter_not_Annots_idem (d : Dict) :
  filter not_Annots (filter not_Annots d) = filter not_Annots d.
Proof.
  induction d as [|kv d IH]; simpl; [reflexivity|].
  destruct (not_Annots kv) eqn:E; simpl; [rewrite E|]; now rewrite IH.
Qed.

(** Rewriting a page dictionary that an earlier write produced replaces
    its [Annots] entry and nothing else: the result is the rewrite of the
    original dictionary with the later sequence. *)
Theorem rewriting_a_rewritten_page_dict :
  forall (d : Dict) (earlier later : list Ref),
    wf_dict d ->
    rewritePageDict (rewritePageDict d earlier) later
    = rewritePageDict d later.
Proof.
  intros d earlier later Hwf.
  rewrite (rewritePageDict_wf _ later (wf_rewritePageDict d earlier)).
  rewrite (rewritePageDict_wf d earlier Hwf), (rewritePageDict_wf d later Hwf).
  rewrite filter_app, filter_not_Annots_idem. simpl.
  now rewrite app_nil_r.
Qed.

Lemma rewriting_a_rewritten_page_dict_witness :
  rewritePageDict (rewritePageDict letterPageDict [mkRef 7 0; mkRef 10 0])
                  [mkRef 7 0; mkRef 10 0; mkRef 11 0]
  = rewritePageDict letterPageDict [mkRef 7 0; mkRef 10 0; mkRef 11 0].
Proof.
  apply (rewriting_a_rewritten_page_dict letterPageDict).
  exact wf_letterPageDict.
Defined.

Lemma minted_from_succ (n : Z) (k : nat) :
  minted_from n (S k) = mkRef n 0 :: minted_from (n + 1) k.
Proof.
  unfold minted_from. simpl. rewrite Z.add_0_r. f_equal.
  rewrite <- seq_shift, map_map. apply map_ext. intros i.
  f_equal. lia.
Qed.

(** The page dictionary a fulfilled write handed to the writer. *)
Lemma written_page_dict (doc : PDFDocument) (a : AnnotationProperties)
    (len n : Z) (p : Page) (w : PDFDataWriter) (doc' : PDFDocument) :
  get_Size (trailer doc) = Some n ->
  getPage doc (page a) = Some p ->
  writeAnnotation_writer doc a len = Some (Fulfilled w, doc') ->
  nth 1 (appended_dicts (w_calls w)) empty
  = rewritePageDict (pageDict p) (annotations p ++ [mkRef n 0])
  /\ getPage doc' (page a) = Some (push_annotation p (mkRef n 0))
  /\ get_Size (trailer doc') = Some (n + 1).
Proof.
  intros HS HP H.
  rewrite (writeAnnotation_writer_fulfilled doc a len n p HS HP) in H.
  injection H as <- <-. rewrite writeUpdate_calls. simpl.
  split; [reflexivity|]. split; [|apply get_Size_set].
  now apply getPage_with_page_same with (q := p).
Qed.

(** Writes issued one after the other for one page all succeed and pile
    up on that page: after them the page holds its former annotations
    followed by every reference minted, in order, and the page dictionary
    of the k-th write lists the former annotations and the first k minted
    references, whether or not the earlier fragments were kept. *)
Theorem writes_to_one_page_accumulate :
  forall (requests : list (AnnotationProperties * Z)) (doc : PDFDocument)
         (n i : Z) (p : Page),
    get_Size (trailer doc) = Some n ->
    getPage doc i = Some p ->
    (forall a len, In (a, len) requests -> page a = i) ->
    exists rs doc',
      write_all doc requests = Some (rs, doc')
      /\ getPage doc' i
         = Some (mkPage (ref p) (pageDict p) (view p)
                        (annotations p
                         ++ minted_from n (List.length requests)))
      /\ get_Size (trailer doc')
         = Some (n + Z.of_nat (List.length requests))
      /\ forall k, (k < List.length requests)%nat ->
           exists w,
             nth_error rs k = Some (Fulfilled w)
             /\ getRaw (nth 1 (appended_dicts (w_calls w)) empty) "Annots"
                = VArr (map VRef (annotations p ++ minted_from n (S k))).
Proof.
  induction requests as [|[a len] rest IH]; intros doc n i p HS HP Hall.
  - exists [], doc. simpl. split; [reflexivity|].
    split; [rewrite HP; destruct p; simpl; now rewrite app_nil_r|].
    split; [rewrite HS; f_equal; lia|]. intros k Hk. inversion Hk.
  - assert (Ha : page a = i) by (apply (Hall a len); now left).
    subst i.
    pose proof (writeAnnotation_writer_fulfilled doc a len n p HS HP) as Hw.
    destruct (written_page_dict _ _ _ _ _ _ _ HS HP Hw) as [Hd [HP1 HS1]].
    destruct (IH _ (n + 1) (page a) _ HS1 HP1) as [rs [doc' [Hr [Hp' [Hs' Hk']]]]].
    { intros a' len' Hin. apply (Hall a' len'). now right. }
    eexists (_ :: rs), doc'. simpl write_all. rewrite Hw, Hr.
    split; [reflexivity|].
    split.
    { rewrite Hp'. simpl. rewrite minted_from_succ, <- app_assoc.
      reflexivity. }
    split.
    { rewrite Hs'. f_equal. simpl List.length. lia. }
    intros [|k] Hk.
    + eexists. split; [reflexivity|]. rewrite Hd.
      unfold rewritePageDict. rewrite getRaw_set_same.
      unfold minted_from. simpl. now rewrite Z.add_0_r.
    + destruct (Hk' k) as [w [Hn Hg]]; [simpl in Hk; lia|].
      exists w. split; [exact Hn|]. rewrite Hg. simpl annotations.
      rewrite (minted_from_succ n (S k)), <- app_assoc. reflexivity.
Qed.

Lemma writes_to_one_page_accumulate_witness :
  exists rs doc',
    write_all sampleDocument
              [ (sampleAnnotation, 2000); (anonymousAnnotation, 2300);
                (tinyAnnotation, 2600) ]
    = Some (rs, doc')
    /\ getPage doc' 0
       = Some (mkPage (ref letterPage) (pageDict letterPage)
                      (view letterPage)
                      (annotations letterPage ++ minted_from 10 3))
    /\ get_Size (trailer doc') = Some (10 + Z.of_nat 3)
    /\ forall k, (k < 3)%nat ->
         exists w,
           nth_error rs k = Some (Fulfilled w)
           /\ getRaw (nth 1 (appended_dicts (w_calls w)) empty) "Annots"
              = VArr (map VRef (annotations letterPage
                                ++ minted_from 10 (S k))).
Proof.
  apply (writes_to_one_page_accumulate
           [ (sampleAnnotation, 2000); (anonymousAnnotation, 2300);
             (tinyAnnotation, 2600) ]
           sampleDocument 10 0 letterPage).
  - reflexivity.
  - reflexivity.
  - intros a len [H|[H|[H|[]]]]; injection H as <- _; reflexivity.
Defined.

(* ================================================================== *)
(** * The two copies of the write path *)
(* ================================================================== *)





(* ================================================================== *)
(** * Chains of update managers *)
(* ================================================================== *)

Lemma update_chain_cons (update : PDFDocument -> Bytes -> PDFDocument)
    (m : PdfManager) (doc : PDFDocument) (fragment : Bytes)
    (fragments : list Bytes) :
  update_chain update m doc (fragment :: fragments)
  = update_chain update
      (fst (new_UpdatePdfManager update m fragment doc))
      (snd (new_UpdatePdfManager update m fragment doc)) fragments.
Proof.
  unfold update_chain. simpl.
  now destruct (new_UpdatePdfManager update m fragment doc).
Qed.

(** An [UpdatePdfManager] built on a chain of earlier ones holds the
    original bytes followed by every fragment, in order.  If the first
    stream failed to load, every manager of the chain fails with the same
    reason, the document is never re-parsed, and an [annotateDocument]
    through the chain is rejected without touching the document. *)
Theorem update_chain_appends_fragments :
  forall (update : PDFDocument -> Bytes -> PDFDocument)
         (fragments : list Bytes) (m : PdfManager) (doc : PDFDocument),
    (forall b,
        onLoadedStream m = Fulfilled b ->
        onLoadedStream (fst (update_chain update m doc fragments))
        = Fulfilled (b ++ List.concat fragments)%list
        /\ forall a,
             annotateDocument_writer
               (fst (update_chain update m doc fragments))
               (snd (update_chain update m doc fragments)) a
             = writeAnnotation_writer
                 (snd (update_chain update m doc fragments)) a
                 (byteLength b + byteLength (List.concat fragments)))
    /\ (forall e,
          onLoadedStream m = Rejected e ->
          onLoadedStream (fst (update_chain update m doc fragments))
          = Rejected e
          /\ snd (update_chain update m doc fragments) = doc
          /\ forall toUint8Array a,
               annotateDocument toUint8Array
                 (fst (update_chain update m doc fragments))
                 (snd (update_chain update m doc fragments)) a
               = Some (Rejected e, doc)).
Proof.
  intros update fragments.
  induction fragments as [|fragment fragments IH]; intros m doc.
  - split.
    + intros b Hb. unfold update_chain. simpl. rewrite app_nil_r.
      split; [exact Hb|]. intros a. unfold annotateDocument_writer.
      rewrite Hb. f_equal. unfold byteLength. simpl. lia.
    + intros e He. unfold update_chain. simpl.
      split; [exact He|]. split; [reflexivity|]. intros toUint8Array a.
      unfold annotateDocument. now rewrite He.
  - rewrite update_chain_cons. split.
    + intros b Hb. unfold new_UpdatePdfManager. rewrite Hb. simpl fst.
      simpl snd.
      destruct (IH (UpdatePdfManager (Fulfilled (b ++ fragment)%list))
                   (update doc (b ++ fragment)%list)) as [Hok _].
      destruct (Hok (b ++ fragment)%list eq_refl) as [Hs Ha].
      simpl List.concat. rewrite app_assoc. split; [exact Hs|].
      intros a. rewrite Ha. f_equal. rewrite !byteLength_app. lia.
    + intros e He. unfold new_UpdatePdfManager. rewrite He. simpl fst.
      simpl snd.
      destruct (IH (UpdatePdfManager (Rejected e)) doc) as [_ Hbad].
      exact (Hbad e eq_refl).
Qed.

Lemma update_chain_appends_fragments_witness :
  onLoadedStream
    (fst (update_chain (fun d _ => d) (LocalPdfManager [Byte.x25])
                       sampleDocument [[Byte.x0a]; [Byte.x0d; Byte.x0a]]))
  = Fulfilled [Byte.x25; Byte.x0a; Byte.x0d; Byte.x0a]
  /\ onLoadedStream
       (fst (update_chain (fun d _ => d)
               (NetworkPdfManager (Rejected (StreamFailed "aborted")))
               sampleDocument [[Byte.x0a]; [Byte.x0d; Byte.x0a]]))
     = Rejected (StreamFailed "aborted").
Proof.
  split.
  - apply (proj1 (update_chain_appends_fragments
                    (fun d _ => d) [[Byte.x0a]; [Byte.x0d; Byte.x0a]]
                    (LocalPdfManager [Byte.x25]) sampleDocument)
                 [Byte.x25] eq_refl).
  - apply (proj2 (update_chain_appends_fragments
                    (fun d _ => d) [[Byte.x0a]; [Byte.x0d; Byte.x0a]]
                    (NetworkPdfManager (Rejected (StreamFailed "aborted")))
                    sampleDocument)
                 (StreamFailed "aborted") eq_refl).
Defined.

(* ================================================================== *)
(** * When [ensure] settles *)
(* ================================================================== *)

Section EnsureProgress.

Variables World Val Err : Type.
Variable operation : World -> Completion Err Val * World.
Variable requestRange : Z -> Z -> World -> option (Exception Err) * World.

Local Abbreviation ensure :=
  (NetworkPdfManager_ensure operation requestRange).

(** If every fulfilled request brings the world closer to one in which
    the operation has what it needs, as counted by a measure, [ensure]
    settles after at most that many retries: it requests no more ranges
    than the measure when it is fulfilled, and one more at most when it is
    rejected. *)
Theorem ensure_settles_under_progress :
  forall measure : World -> nat,
    (forall w b e w' w'',
        operation w = (Throw (MissingDataException b e), w') ->
        requestRange b e w' = (None, w'') ->
        (measure w'' < measure w)%nat) ->
    forall w,
      exists r,
        NetworkPdfManager_ensure operation requestRange (S (measure w)) w
        = Some r
        /\ (List.length (requested r) <= S (measure w))%nat
        /\ (forall v, settled r = Fulfilled v ->
              (List.length (requested r) <= measure w)%nat).
Proof.
  intros measure Hprogress.
  enough (H : forall k w, (measure w <= k)%nat ->
                exists r,
                  ensure (S k) w = Some r
                  /\ (List.length (requested r) <= S (measure w))%nat
                  /\ (forall v, settled r = Fulfilled v ->
                        (List.length (requested r) <= measure w)%nat)).
  { intros w. apply (H (measure w) w). lia. }
  induction k as [|k IH]; intros w Hk.
  - simpl. destruct (operation w) as [[v|[b e|x]] w'] eqn:Hop.
    + eexists. split; [reflexivity|]. simpl. split; [lia|]. intros; lia.
    + destruct (requestRange b e w') as [[ex|] w''] eqn:Hreq.
      * eexists. split; [reflexivity|]. simpl. split; [lia|].
        intros v Hv. discriminate.
      * pose proof (Hprogress _ _ _ _ _ Hop Hreq). lia.
    + eexists. split; [reflexivity|]. simpl. split; [lia|]. intros; lia.
  - change (ensure (S (S k)) w)
      with (match operation w with
            | (Normal value, w') => Some (mkEnsured (Fulfilled value) w' [])
            | (Throw (OtherException e), w') =>
                Some (mkEnsured (Rejected (OtherException e)) w' [])
            | (Throw (MissingDataException b e), w') =>
                match requestRange b e w' with
                | (Some ex, w'') => Some (mkEnsured (Rejected ex) w'' [(b, e)])
                | (None, w'') =>
                    option_map (also_requested (b, e)) (ensure (S k) w'')
                end
            end).
    destruct (operation w) as [[v|[b e|x]] w'] eqn:Hop.
    + eexists. split; [reflexivity|]. simpl. split; [lia|]. intros; lia.
    + destruct (requestRange b e w') as [[ex|] w''] eqn:Hreq.
      * eexists. split; [reflexivity|]. simpl. split; [lia|].
        intros v Hv. discriminate.
      * pose proof (Hprogress _ _ _ _ _ Hop Hreq) as Hlt.
        destruct (IH w'') as [r [Hr [Hl Hf]]]; [lia|].
        rewrite Hr. eexists. split; [reflexivity|]. simpl.
        split; [lia|]. intros v Hv. specialize (Hf v Hv). lia.
    + eexists. split; [reflexivity|]. simpl. split; [lia|]. intros; lia.
Qed.

(** If the operation keeps signalling a range and the fulfilled request
    changes nothing, [ensure] never settles: no number of evaluations is
    enough, and the protocol has no outcome for it. *)
Theorem ensure_never_settles_when_stuck :
  forall w b e,
    operation w = (Throw (MissingDataException b e), w) ->
    requestRange b e w = (None, w) ->
    (forall fuel,
        NetworkPdfManager_ensure operation requestRange fuel w = None)
    /\ (forall r, ~ ensure_protocol operation requestRange w r).
Proof.
  intros w b e Hop Hreq.
  assert (H : forall fuel, ensure fuel w = None).
  { induction fuel as [|fuel IH]; [reflexivity|].
    simpl. rewrite Hop, Hreq, IH. reflexivity. }
  split; [exact H|].
  intros r Hp. apply NetworkPdfManager_ensure_protocol in Hp as [fuel Hf].
  rewrite H in Hf. discriminate.
Qed.

End EnsureProgress.

Section EnsureAdoption.

Variables World V Err : Type.
Variable operation : World -> Completion Err (Returned Err V) * World.
Variable requestRange : Z -> Z -> World -> option (Exception Err) * World.

(** [ensure] catches what the evaluation throws and nothing else.  However
    its promise settles, that goes back to one evaluation, in the world it
    leaves: it is fulfilled with a value the operation returned, plainly or
    in a fulfilled promise; it is rejected with another exception the
    operation threw, with the rejection of a range request, or with the
    rejection of a promise the operation returned.  The last may be the
    missing-data signal: an operation that returns a promise rejected with
    it has [ensure] rejected with that signal after one evaluation, and no
    range is requested. *)
Theorem ensure_catches_thrown_signals_only :
  (forall fuel w r,
      NetworkPdfManager_ensure operation requestRange fuel w = Some r ->
      match adopt (settled r) with
      | Fulfilled v =>
          exists w0,
            operation w0 = (Normal (Plain v), world r)
            \/ operation w0 = (Normal (Thenable (Fulfilled v)), world r)
      | Rejected ex =>
          (exists w0 x, ex = OtherException x
                        /\ operation w0 = (Throw ex, world r))
          \/ (exists b e w0 w1,
                 operation w0 = (Throw (MissingDataException b e), w1)
                 /\ requestRange b e w1 = (Some ex, world r))
          \/ (exists w0,
                 operation w0 = (Normal (Thenable (Rejected ex)), world r))
      end)
  /\ (forall fuel w b e w',
         operation w
         = (Normal (Thenable (Rejected (MissingDataException b e))), w') ->
         exists r,
           NetworkPdfManager_ensure operation requestRange (S fuel) w
           = Some r
           /\ adopt (settled r) = Rejected (MissingDataException b e)
           /\ world r = w'
           /\ requested r = []).
Proof.
  split.
  - induction fuel as [|fuel IH]; intros w r H; [discriminate|].
    simpl in H.
    destruct (operation w) as [[[v|[v|ex]]|[b e|x]] w'] eqn:Hop.
    + injection H as <-. simpl. exists w. now left.
    + injection H as <-. simpl. exists w. now right.
    + injection H as <-. simpl. right. right. now exists w.
    + destruct (requestRange b e w') as [[ex|] w''] eqn:Hreq.
      * injection H as <-. simpl. right. left. now exists b, e, w, w'.
      * destruct (NetworkPdfManager_ensure operation requestRange fuel w'')
          as [r0|] eqn:E; [|discriminate].
        injection H as <-. simpl. exact (IH w'' r0 E).
    + injection H as <-. simpl. left. now exists w, x.
  - intros fuel w b e w' Hop. simpl. rewrite Hop.
    eexists. split; [reflexivity|]. repeat split.
Qed.

End EnsureAdoption.

Lemma sample_progress :
  forall (w : list (Z * Z)) (b e : Z) (w' w'' : list (Z * Z)),
    sample_operation w = (Throw (MissingDataException b e), w') ->
    sample_requestRange b e w' = (None, w'') ->
    (sample_missing w'' < sample_missing w)%nat.
Proof.
  intros w b e w' w'' Hop Hreq. unfold sample_requestRange in Hreq.
  injection Hreq as <-. unfold sample_operation in Hop.
  unfold sample_missing.
  destruct (resident w 0 10) eqn:R1.
  - destruct (resident w 10 20) eqn:R2; [discriminate|].
    injection Hop as <- <- <-. unfold resident in *. simpl.
    rewrite R1. simpl. lia.
  - injection Hop as <- <- <-. unfold resident in *. simpl.
    destruct (existsb _ w); simpl; lia.
Defined.

Lemma ensure_settles_under_progress_witness :
  exists r,
    NetworkPdfManager_ensure sample_operation sample_requestRange
                             (S (sample_missing [])) []
    = Some r
    /\ (List.length (requested r) <= S (sample_missing []))%nat
    /\ (forall v, settled r = Fulfilled v ->
          (List.length (requested r) <= sample_missing [])%nat).
Proof.
  exact (ensure_settles_under_progress
           (list (Z * Z)) Z string sample_operation sample_requestRange
           sample_missing sample_progress []).
Defined.

Lemma ensure_never_settles_when_stuck_witness :
  (forall fuel,
      NetworkPdfManager_ensure stuck_operation deaf_requestRange fuel []
      = None)
  /\ (forall r, ~ ensure_protocol stuck_operation deaf_requestRange [] r).
Proof.
  apply (ensure_never_settles_when_stuck
           (list (Z * Z)) Z string stuck_operation deaf_requestRange
           [] 0 10); reflexivity.
Defined.

Lemma ensure_catches_thrown_signals_only_witness :
  exists r,
    NetworkPdfManager_ensure async_operation sample_requestRange 1 [] = Some r
    /\ adopt (settled r) = Rejected (MissingDataException 0 10)
    /\ world r = []
    /\ requested r = [].
Proof.
  exact (proj2 (ensure_catches_thrown_signals_only
                  (list (Z * Z)) Z string async_operation
                  sample_requestRange)
               0%nat [] 0 10 [] eq_refl).
Defined.
